(** * ShortcutFiller: the shortcut store and the bold toggle

    A shallow embedding of [src/app/components/shortcut-manager.tsx].
    The React component [ShortcutManager] keeps six pieces of state and
    reacts to events through handlers; here the state is a record and
    every handler is a function from the state before the event to the
    state after it.

    JavaScript strings are sequences of UTF-16 code units, and
    [length], [substring], [startsWith], [endsWith], [trim] and [===]
    all work on code units, so a string is a list of code units.
    Indices and caret positions are JavaScript numbers holding
    integers far below 2^53; they are modelled by [Z], which keeps the
    negative values the arithmetic of the source can produce. *)

From Stdlib Require Import ZArith Ascii String.
From stdpp Require Import base decidable numbers option list strings.

(** ** JavaScript strings *)

Module JS.

(** A UTF-16 code unit (a number below 65536), and a string. *)
Abbreviation char16 := N (only parsing).

Abbreviation jsstring := (list N) (only parsing).

(** A string literal of the source (all literals of the file are ASCII). *)
Definition lit (s : string) : jsstring :=
  (λ a, N_of_ascii a) <$> list_ascii_of_string s.

(** [s.length] *)
Definition len (s : jsstring) : Z := Z.of_nat (length s).

(** The clamping of an index argument of [substring] to [0..length]. *)
Definition clampIndex (s : jsstring) (i : Z) : nat :=
  Z.to_nat (Z.min (Z.max i 0) (len s)).

(** [s.substring(a, b)]: both indices are clamped, and swapped when the
    first exceeds the second. *)
Definition substring (s : jsstring) (a b : Z) : jsstring :=
  let finalStart := clampIndex s a in
  let finalEnd := clampIndex s b in
  let from := Nat.min finalStart finalEnd in
  let to := Nat.max finalStart finalEnd in
  take (to - from) (drop from s).

(** [s.substring(a)]: the end index defaults to the length. *)
Definition substringFrom (s : jsstring) (a : Z) : jsstring :=
  substring s a (len s).

(** [s.startsWith(searchString)] *)
Definition startsWith (s searchString : jsstring) : bool :=
  if bool_decide (length searchString ≤ length s)
  then bool_decide (take (length searchString) s = searchString)
  else false.

(** [s.endsWith(searchString)] *)
Definition endsWith (s searchString : jsstring) : bool :=
  if bool_decide (length searchString ≤ length s)
  then bool_decide (drop (length s - length searchString) s = searchString)
  else false.

(** White space and line terminators, the code units [trim] removes. *)
Definition isWhiteSpace (c : char16) : bool :=
  ((9 <=? c) && (c <=? 13) || (c =? 32) || (c =? 160) || (c =? 5760)
   || (8192 <=? c) && (c <=? 8202) || (c =? 8232) || (c =? 8233)
   || (c =? 8239) || (c =? 8287) || (c =? 12288) || (c =? 65279))%N.

Fixpoint trimStart (s : jsstring) : jsstring :=
  match s with
  | c :: s' => if isWhiteSpace c then trimStart s' else s
  | [] => []
  end.

Definition trimEnd (s : jsstring) : jsstring :=
  reverse (trimStart (reverse s)).

(** [s.trim()] *)
Definition trim (s : jsstring) : jsstring := trimEnd (trimStart s).

(** Truthiness of a string: only the empty string is falsy. *)
Definition truthy (s : jsstring) : bool :=
  match s with [] => false | _ :: _ => true end.

End JS.

Import JS.

(** ** The component state *)

(** [interface Shortcut] *)
Record Shortcut : Type := mkShortcut {
  name : jsstring;
  content : jsstring
}.

Inductive MessageType : Type := success | error.

Record Message : Type := mkMessage {
  type : MessageType;
  text : jsstring
}.

(** The [useState] cells of [ShortcutManager]. *)
Record State : Type := mkState {
  shortcutName : jsstring;
  shortcutContent : jsstring;
  shortcuts : list Shortcut;
  testInput : jsstring;
  testOutput : jsstring;
  message : option Message
}.

(** The state of the first render. *)
Definition initialState : State :=
  {| shortcutName := []; shortcutContent := []; shortcuts := [];
     testInput := []; testOutput := []; message := None |}.

#[global] Instance Shortcut_eq_dec : EqDecision Shortcut.
Proof. solve_decision. Defined.

(** ** The bold toggle (Ctrl+B / Cmd+B) *)

(** The test of line 150: the selection counts as bold when it starts
    and ends with the marker. *)
Definition isBold (selectedText : jsstring) : bool :=
  startsWith selectedText (lit "**") && endsWith selectedText (lit "**").

(** Lines 144-166 of [handleKeyDown]: the new content of the text area
    and the caret position that is restored afterwards. *)
Definition toggleBold (shortcutContent : jsstring) (start end_ : Z)
  : jsstring * Z :=
  let selectedText := substring shortcutContent start end_ in
  if isBold selectedText then
    (substring shortcutContent 0 start
       ++ substring selectedText 2 (len selectedText - 2)
       ++ substringFrom shortcutContent end_,
     (start + len selectedText - 4)%Z)
  else
    (substring shortcutContent 0 start
       ++ lit "**" ++ selectedText ++ lit "**"
       ++ substringFrom shortcutContent end_,
     (start + len selectedText + 2)%Z).

(** The keyboard event, and the text area behind [contentTextareaRef]
    with its selection. *)
Record KeyEvent : Type := mkKeyEvent {
  ctrlKey : bool;
  metaKey : bool;
  key : jsstring
}.

Record Textarea : Type := mkTextarea {
  selectionStart : Z;
  selectionEnd : Z
}.

(** [handleKeyDown]: the state after the event, and the caret position
    the deferred callback of line 174 writes to the text area (none
    when the key is not the bold chord or the ref is empty). *)
Definition handleKeyDown (e : KeyEvent) (textarea : option Textarea)
    (st : State) : State * option Z :=
  if (ctrlKey e || metaKey e) && bool_decide (key e = lit "b") then
    match textarea with
    | None => (st, None)
    | Some ta =>
        let '(newContent, newCursorPos) :=
          toggleBold (shortcutContent st) (selectionStart ta) (selectionEnd ta) in
        ({| shortcutName := shortcutName st;
            shortcutContent := newContent;
            shortcuts := shortcuts st;
            testInput := testInput st;
            testOutput := testOutput st;
            message := message st |},
         Some newCursorPos)
    end
  else (st, None).

(** ** The shortcut store *)

(** [array.findIndex(p)]: the index of the first element satisfying
    [p], or -1. *)
Definition findIndex {A} (P : A → Prop) `{∀ x, Decision (P x)}
    (l : list A) : Z :=
  match list_find P l with
  | Some (i, _) => Z.of_nat i
  | None => (-1)%Z
  end.

(** [array.find(p)]: the first element satisfying [p], or [undefined]. *)
Definition find {A} (P : A → Prop) `{∀ x, Decision (P x)}
    (l : list A) : option A :=
  snd <$> list_find P l.

(** The [onChange] handlers of the two fields (lines 222 and 237). *)
Definition setShortcutName (v : jsstring) (st : State) : State :=
  {| shortcutName := v;
     shortcutContent := shortcutContent st;
     shortcuts := shortcuts st;
     testInput := testInput st;
     testOutput := testOutput st;
     message := message st |}.

Definition setShortcutContent (v : jsstring) (st : State) : State :=
  {| shortcutName := shortcutName st;
     shortcutContent := v;
     shortcuts := shortcuts st;
     testInput := testInput st;
     testOutput := testOutput st;
     message := message st |}.

(** The test of line 64. *)
Definition validationFails (st : State) : bool :=
  negb (truthy (trim (shortcutName st)))
  || negb (truthy (trim (shortcutContent st))).

(** [handleSaveShortcut] (lines 63-105).  The functional update of
    line 91 receives as [prev] the collection of the current render,
    no other update being pending inside the event.  The message is
    cleared by a timer two seconds later, which is an event of its own
    and does not touch the collection. *)
Definition handleSaveShortcut (st : State) : State :=
  if validationFails st then
    {| shortcutName := shortcutName st;
       shortcutContent := shortcutContent st;
       shortcuts := shortcuts st;
       testInput := testInput st;
       testOutput := testOutput st;
       message :=
         Some (mkMessage error
                 (lit "Both shortcut name and content are required.")) |}
  else
    let existingShortcutIndex :=
      findIndex (λ s, name s = trim (shortcutName st)) (shortcuts st) in
    if bool_decide (existingShortcutIndex ≠ (-1)%Z) then
      {| shortcutName := [];
         shortcutContent := [];
         shortcuts :=
           <[Z.to_nat existingShortcutIndex :=
               {| name := trim (shortcutName st);
                  content := shortcutContent st |}]> (shortcuts st);
         testInput := testInput st;
         testOutput := testOutput st;
         message :=
           Some (mkMessage success
                   (lit "Shortcut '" ++ trim (shortcutName st)
                      ++ lit "' updated!")) |}
    else
      {| shortcutName := [];
         shortcutContent := [];
         shortcuts :=
           shortcuts st
             ++ [ {| name := trim (shortcutName st);
                     content := shortcutContent st |} ];
         testInput := testInput st;
         testOutput := testOutput st;
         message :=
           Some (mkMessage success
                   (lit "Shortcut '" ++ trim (shortcutName st)
                      ++ lit "' saved correctly!")) |}.

(** The user fills in both fields and presses "Save It". *)
Definition upsert (n k : jsstring) (st : State) : State :=
  handleSaveShortcut (setShortcutContent k (setShortcutName n st)).

(** The text shown when no shortcut matches (line 116). *)
Definition notFoundText : jsstring := lit "Shortcut does not exist yet".

(** The search of line 112. *)
Definition lookup (c : list Shortcut) (input : jsstring) : option Shortcut :=
  find (λ s, name s = trim input) c.

(** [handleTestInputChange] (lines 107-120); [input] is [e.target.value]. *)
Definition handleTestInputChange (input : jsstring) (st : State) : State :=
  let foundShortcut := lookup (shortcuts st) input in
  {| shortcutName := shortcutName st;
     shortcutContent := shortcutContent st;
     shortcuts := shortcuts st;
     testInput := input;
     testOutput :=
       match foundShortcut with
       | Some s => content s
       | None => notFoundText
       end;
     message := message st |}.

(** [handleClearAllShortcuts] (lines 124-131); [confirmed] is the answer
    of the [confirm] dialog. *)
Definition handleClearAllShortcuts (confirmed : bool) (st : State) : State :=
  if confirmed then
    {| shortcutName := shortcutName st;
       shortcutContent := shortcutContent st;
       shortcuts := [];
       testInput := testInput st;
       testOutput := [];
       message := Some (mkMessage success (lit "All shortcuts cleared.")) |}
  else st.

(** ** Loading from [localStorage] *)

(** What [localStorage.getItem("shortcuts")] does: it throws, or returns
    [null] or the stored string. *)
Inductive GetItem : Type :=
  | getItemThrows
  | getItemReturns (savedShortcuts : option jsstring).

Section Load.

(** [JSON.parse] is a built-in of the platform: it returns a value or
    throws a [SyntaxError] ([None]).  The state cell is typed
    [Shortcut[]], so the parsed value is taken at that type. *)
Variable JSON_parse : jsstring → option (list Shortcut).

(** The mount effect of lines 41-51, with the lines written by
    [console.error]. *)
Definition loadShortcuts (read : GetItem) (st : State)
  : State * list jsstring :=
  let failed :=
    ({| shortcutName := shortcutName st;
        shortcutContent := shortcutContent st;
        shortcuts := shortcuts st;
        testInput := testInput st;
        testOutput := testOutput st;
        message :=
          Some (mkMessage error (lit "Failed to load saved shortcuts.")) |},
     [lit "Failed to load shortcuts from localStorage:"]) in
  match read with
  | getItemThrows => failed
  | getItemReturns None => (st, [])
  | getItemReturns (Some savedShortcuts) =>
      if truthy savedShortcuts then
        match JSON_parse savedShortcuts with
        | Some parsed =>
            ({| shortcutName := shortcutName st;
                shortcutContent := shortcutContent st;
                shortcuts := parsed;
                testInput := testInput st;
                testOutput := testOutput st;
                message := message st |}, [])
        | None => failed
        end
      else (st, [])
  end.

End Load.

(** ** The component as a state machine *)

Inductive Event : Type :=
  | ChangeName (v : jsstring)
  | ChangeContent (v : jsstring)
  | ClickSave
  | ChangeTestInput (v : jsstring)
  | ClickClearAll (confirmed : bool)
  | KeyDown (e : KeyEvent) (textarea : option Textarea).

Definition step (st : State) (ev : Event) : State :=
  match ev with
  | ChangeName v => setShortcutName v st
  | ChangeContent v => setShortcutContent v st
  | ClickSave => handleSaveShortcut st
  | ChangeTestInput v => handleTestInputChange v st
  | ClickClearAll confirmed => handleClearAllShortcuts confirmed st
  | KeyDown e textarea => fst (handleKeyDown e textarea st)
  end.

Definition run (evs : list Event) : State := foldl step initialState evs.

(** ** The data model of the collection *)

(** Every stored name is its own trim, as the names
    [handleSaveShortcut] writes are. *)
Definition namesTrimmed (c : list Shortcut) : Prop :=
  Forall (λ s, trim (name s) = name s) c.

(** No two entries share the same name after trimming. *)
Definition uniqueTrimmedNames (c : list Shortcut) : Prop :=
  NoDup ((λ s, trim (name s)) <$> c).

Definition ShortcutCollection (c : list Shortcut) : Prop :=
  namesTrimmed c ∧ uniqueTrimmedNames c.

(** The number of entries whose trimmed name is [n]. *)
Definition countNamed (n : jsstring) (c : list Shortcut) : nat :=
  length (filter (λ s, trim (name s) = n) c).

(** ** Definitions used by the statements *)

(** The toggle as section 4.2 of the specification words it: the
    selection is already bold when it starts with the marker, ends with
    it and has at least four units.  It is compared with [toggleBold],
    the toggle of the source, below. *)
Definition toggleBoldSpec (text : jsstring) (start end_ : Z) : jsstring * Z :=
  let selected := take (Z.to_nat (end_ - start)) (drop (Z.to_nat start) text) in
  if startsWith selected (lit "**") && endsWith selected (lit "**")
     && bool_decide (4 ≤ len selected)%Z
  then
    (take (Z.to_nat start) text
       ++ take (length selected - 4) (drop 2 selected)
       ++ drop (Z.to_nat end_) text,
     (start + len selected - 4)%Z)
  else
    (take (Z.to_nat start) text
       ++ lit "**" ++ selected ++ lit "**"
       ++ drop (Z.to_nat end_) text,
     (start + len selected + 2)%Z).

(** The first unit of a string, if any, is not white space. *)
Definition headNotWhite (s : jsstring) : Prop :=
  match s with
  | [] => True
  | c :: _ => isWhiteSpace c = false
  end.

(** The collection after a save that passes the validation, as a
    function of the collection before it, the name field and the
    content field (see [handleSaveShortcut_shortcuts]). *)
Definition savedInto (c : list Shortcut) (n k : jsstring) : list Shortcut :=
  match list_find (λ s, name s = trim n) c with
  | Some (i, _) => <[i := {| name := trim n; content := k |}]> c
  | None => c ++ [ {| name := trim n; content := k |} ]
  end.

(** Where the entry named [trim n] sits after the save. *)
Definition savedAt (c : list Shortcut) (n : jsstring) : nat :=
  match list_find (λ s, name s = trim n) c with
  | Some (i, _) => i
  | None => length c
  end.

(** A state with two saved shortcuts, used to instantiate the theorems. *)
Definition exampleState : State :=
  {| shortcutName := lit "draft";
     shortcutContent := lit "text";
     shortcuts :=
       [ {| name := lit ".bye"; content := lit "Bye!" |};
         {| name := lit ".greet"; content := lit "Hello" |} ];
     testInput := [];
     testOutput := [];
     message := None |}.

(** A stand-in for [JSON.parse] used to instantiate the theorems: it
    reads the empty array and rejects every other string, the empty
    string among them (on which [JSON.parse] throws a [SyntaxError]). *)
Definition parseEmptyArrayOnly (s : jsstring) : option (list Shortcut) :=
  if bool_decide (s = lit "[]") then Some [] else None.

Definition loadWarning : Message :=
  mkMessage error (lit "Failed to load saved shortcuts.").

(** ** Rendering the bold markers *)

(** The code units the dot of a regular expression does not match. *)
Definition isLineTerminator (c : char16) : bool :=
  ((c =? 10) || (c =? 13) || (c =? 8232) || (c =? 8233))%N.

(** The part [(.*?)\*\*] of the pattern of line 36, tried on the text
    after an opening marker: the lazy star gives the closing marker
    the first try at every position and otherwise consumes one unit
    that is not a line terminator.  The result is the captured group
    and the text after the match. *)
Fixpoint matchUntilMarker (s : jsstring) : option (jsstring * jsstring) :=
  if startsWith s (lit "**") then Some ([], drop 2 s)
  else
    match s with
    | [] => None
    | c :: s' =>
        if isLineTerminator c then None
        else
          match matchUntilMarker s' with
          | Some (group, rest) => Some (c :: group, rest)
          | None => None
          end
    end.

(** [markdown.replace(/\*\*(.*?)\*\*/g, "<strong>$1</strong>")]: the
    matches are searched from left to right; a match is replaced and
    the search goes on after it, and a unit at which no match starts
    is copied.  The recursion is on a counter that [renderContent]
    sets to the length of the text, which is never used up
    ([replaceBold_fuel]). *)
Fixpoint replaceBold (fuel : nat) (markdown : jsstring) : jsstring :=
  match fuel, markdown with
  | _, [] => []
  | 0, _ :: _ => markdown
  | S fuel', c :: s' =>
      if startsWith markdown (lit "**") then
        match matchUntilMarker (drop 2 markdown) with
        | Some (group, rest) =>
            lit "<strong>" ++ group ++ lit "</strong>"
              ++ replaceBold fuel' rest
        | None => c :: replaceBold fuel' s'
        end
      else c :: replaceBold fuel' s'
  end.

(** [renderContent] (lines 33-38). *)
Definition renderContent (markdown : jsstring) : jsstring :=
  replaceBold (length markdown) markdown.

(** ** What the component shows *)

(** The text of the output box (line 264). *)
Definition displayedOutput (st : State) : jsstring :=
  if truthy (testOutput st) then testOutput st
  else lit "Output will appear here...".

(** ** Saving to [localStorage] *)

Section Persist.

Variable JSON_parse : jsstring → option (list Shortcut).

(** [JSON.stringify] on the collection, a built-in of the platform. *)
Variable JSON_stringify : list Shortcut → jsstring.

(** The effect of lines 54-61 on the value stored under the key
    "shortcuts": [canWrite] tells whether [localStorage.setItem]
    returns or throws.  The third component is what [console.error]
    prints. *)
Definition saveShortcuts (canWrite : bool) (storage : option jsstring)
    (st : State) : State * option jsstring * list jsstring :=
  if canWrite then (st, Some (JSON_stringify (shortcuts st)), [])
  else
    ({| shortcutName := shortcutName st;
        shortcutContent := shortcutContent st;
        shortcuts := shortcuts st;
        testInput := testInput st;
        testOutput := testOutput st;
        message :=
          Some (mkMessage error (lit "Failed to save shortcuts.")) |},
     storage,
     [lit "Failed to save shortcuts to localStorage:"]).

(** What [getItem] does on the stored value. *)
Definition getItem (canRead : bool) (storage : option jsstring) : GetItem :=
  if canRead then getItemReturns storage else getItemThrows.

(** Whether the load effect reaches [setShortcuts] (line 45). *)
Definition loadSetsShortcuts (read : GetItem) : bool :=
  match read with
  | getItemReturns (Some savedShortcuts) =>
      truthy savedShortcuts && bool_decide (is_Some (JSON_parse savedShortcuts))
  | _ => false
  end.

(** The first render and its effects.  Both effects run after the
    first render, in the order of lines 41 and 54, and both see the
    state of that render: the save effect writes the empty collection
    of [initialState].  The updates they queue are then applied in
    order, and when the load effect has set the collection the
    component renders again and the save effect, which depends on
    [shortcuts], runs a second time on the loaded collection. *)
Definition mount (canRead canWrite : bool) (storage : option jsstring)
  : State * option jsstring :=
  let read := getItem canRead storage in
  let loaded := fst (loadShortcuts JSON_parse read initialState) in
  let '(saved, storage1, _) := saveShortcuts canWrite storage initialState in
  let st1 :=
    {| shortcutName := shortcutName loaded;
       shortcutContent := shortcutContent loaded;
       shortcuts := shortcuts loaded;
       testInput := testInput loaded;
       testOutput := testOutput loaded;
       message := if canWrite then message loaded else message saved |} in
  if loadSetsShortcuts read then
    let '(st2, storage2, _) := saveShortcuts canWrite storage1 st1 in
    (st2, storage2)
  else (st1, storage1).

(** Whether an event gives [shortcuts] a new array, so that the save
    effect runs after it: a save that passes the validation (lines 84
    and 91) and a confirmed clearing (line 126). *)
Definition setsShortcuts (st : State) (ev : Event) : bool :=
  match ev with
  | ClickSave => negb (validationFails st)
  | ClickClearAll confirmed => confirmed
  | _ => false
  end.

(** An event followed by the save effect when it runs. *)
Definition stepPersist (canWrite : bool) (w : State * option jsstring)
    (ev : Event) : State * option jsstring :=
  let st' := step (fst w) ev in
  if setsShortcuts (fst w) ev then
    let '(st'', storage', _) := saveShortcuts canWrite (snd w) st' in
    (st'', storage')
  else (st', snd w).

End Persist.

(** ** Definitions used by the statements of the further properties *)

(** The text contains the marker somewhere. *)
Definition containsMarker (s : jsstring) : Prop :=
  ∃ p q, s = p ++ lit "**" ++ q.

(** The same, as a test. *)
Fixpoint hasMarker (s : jsstring) : bool :=
  match s with
  | [] => false
  | _ :: s' => startsWith s (lit "**") || hasMarker s'
  end.

(** No unit of the text is a star. *)
Definition starFree (s : jsstring) : Prop := Forall (λ c, c ≠ 42%N) s.

(** No unit of the text is a line terminator. *)
Definition oneLine (s : jsstring) : Prop :=
  Forall (λ c, isLineTerminator c = false) s.

(** The entries the form can produce: the name is trimmed and not
    empty, the content is not blank. *)
Definition formEntry (s : Shortcut) : Prop :=
  name s ≠ [] ∧ trim (name s) = name s ∧ trim (content s) ≠ [].

(** A stand-in for [JSON.stringify] used to instantiate the theorems,
    the inverse of [parseEmptyArrayOnly] on the empty collection. *)
Definition stringifyEmptyArrayOnly (c : list Shortcut) : jsstring :=
  match c with [] => lit "[]" | _ :: _ => lit "[...]" end.

(** The value the load effect hands to [setShortcuts] (line 45), when
    it gets there: the stored string is present, not empty, and
    parsed. *)
Definition parsedCollection
    (JSON_parse : jsstring → option (list Shortcut)) (read : GetItem)
  : option (list Shortcut) :=
  match read with
  | getItemReturns (Some savedShortcuts) =>
      if truthy savedShortcuts then JSON_parse savedShortcuts else None
  | _ => None
  end.

(** Every entry is one the form can produce, and no two entries have
    the same name. *)
Definition formCollection (c : list Shortcut) : Prop :=
  Forall formEntry c ∧ NoDup (name <$> c).

(** A stand-in for [JSON.parse] that also reads back what
    [stringifyEmptyArrayOnly] writes for the collection of
    [exampleState]. *)
Definition parseStandIn (s : jsstring) : option (list Shortcut) :=
  if bool_decide (s = lit "[]") then Some []
  else if bool_decide (s = lit "[...]") then Some (shortcuts exampleState)
  else None.

(** A sequence of events, each followed by the save effect when it
    runs. *)
Definition runPersist (JSON_stringify : list Shortcut → jsstring)
    (canWrite : bool) (w : State * option jsstring) (evs : list Event)
  : State * option jsstring :=
  foldl (stepPersist JSON_stringify canWrite) w evs.

(** The stored value is the serialisation of the collection. *)
Definition inSync (JSON_stringify : list Shortcut → jsstring)
    (w : State * option jsstring) : Prop :=
  snd w = Some (JSON_stringify (shortcuts (fst w))).

(** Two states that differ in the message at most. *)
Definition sameButMessage (a b : State) : Prop :=
  shortcutName a = shortcutName b
  ∧ shortcutContent a = shortcutContent b
  ∧ shortcuts a = shortcuts b
  ∧ testInput a = testInput b
  ∧ testOutput a = testOutput b.

(** * Properties *)

(** ** Examples *)

Example toggle_hello :
  toggleBold (lit "hello world") 0 5 = (lit "**hello** world", 7%Z).
Proof. reflexivity. Qed.

Example save_greet :
  shortcuts (upsert (lit " greet ") (lit "Hi!") initialState)
  = [ mkShortcut (lit "greet") (lit "Hi!") ].
Proof. reflexivity. Qed.

Example toggle_twice_hello :
  toggleBold (lit "**hello** world") 0 9 = (lit "hello world", 5%Z).
Proof. reflexivity. Qed.

Example toggle_two_stars :
  toggleBold (lit "**") 0 2 = (lit "**", (-2)%Z).
Proof. reflexivity. Qed.

(** ** Strings *)

Section StringFacts.

Implicit Types s p m q : jsstring.

Lemma len_app s q : len (s ++ q) = (len s + len q)%Z.
Proof. unfold len. rewrite length_app. lia. Qed.

Lemma len_nonneg s : (0 ≤ len s)%Z.
Proof. unfold len. lia. Qed.

(** On a range inside the string, [substring] is the slice. *)
Lemma substring_slice s (a b : Z) :
  (0 ≤ a ≤ b)%Z → (b ≤ len s)%Z →
  substring s a b = take (Z.to_nat (b - a)) (drop (Z.to_nat a) s).
Proof.
  intros Hab Hb. unfold substring, clampIndex, len in *.
  f_equal; [lia | f_equal; lia].
Qed.

(** The three slices the toggle cuts out of [p ++ m ++ q]. *)
Lemma substring_before p m q (a : Z) :
  a = len p → substring (p ++ m ++ q) 0 a = p.
Proof.
  intros ->. rewrite substring_slice.
  - change (Z.to_nat 0) with 0%nat. rewrite drop_0.
    replace (Z.to_nat (len p - 0)) with (length p) by (unfold len; lia).
    by rewrite take_app_length.
  - pose proof (len_nonneg p). lia.
  - rewrite !len_app. pose proof (len_nonneg m). pose proof (len_nonneg q). lia.
Qed.

Lemma substring_middle p m q (a b : Z) :
  a = len p → b = (len p + len m)%Z → substring (p ++ m ++ q) a b = m.
Proof.
  intros -> ->. rewrite substring_slice.
  - replace (Z.to_nat (len p)) with (length p) by (unfold len; lia).
    rewrite drop_app_length.
    replace (Z.to_nat (len p + len m - len p)) with (length m)
      by (unfold len; lia).
    by rewrite take_app_length.
  - pose proof (len_nonneg p). pose proof (len_nonneg m). lia.
  - rewrite !len_app. pose proof (len_nonneg q). lia.
Qed.

Lemma substring_after p m q (b : Z) :
  b = (len p + len m)%Z → substringFrom (p ++ m ++ q) b = q.
Proof.
  intros ->. unfold substringFrom. rewrite substring_slice.
  - replace (Z.to_nat (len p + len m)) with (length (p ++ m))
      by (rewrite length_app; unfold len; lia).
    rewrite (app_assoc p m q), drop_app_length.
    apply take_ge. rewrite <- app_assoc, !len_app. unfold len. lia.
  - rewrite !len_app.
    pose proof (len_nonneg p). pose proof (len_nonneg m).
    pose proof (len_nonneg q). lia.
  - lia.
Qed.

(** A valid selection splits the text in three. *)
Lemma selection_split s (a b : Z) :
  (0 ≤ a ≤ b)%Z → (b ≤ len s)%Z →
  ∃ p m q, s = p ++ m ++ q ∧ len p = a ∧ len m = (b - a)%Z.
Proof.
  intros Hab Hb.
  exists (take (Z.to_nat a) s),
         (take (Z.to_nat (b - a)) (drop (Z.to_nat a) s)),
         (drop (Z.to_nat (b - a)) (drop (Z.to_nat a) s)).
  split; [by rewrite !take_drop|].
  unfold len in *. rewrite !length_take, length_drop. lia.
Qed.

(** The marker, and the test of line 150 on a wrapped span. *)
Lemma startsWith_app m q : startsWith (m ++ q) m = true.
Proof.
  unfold startsWith. rewrite length_app.
  rewrite bool_decide_true by lia.
  rewrite take_app_length. by apply bool_decide_true.
Qed.

Lemma endsWith_app p m : endsWith (p ++ m) m = true.
Proof.
  unfold endsWith. rewrite length_app.
  rewrite bool_decide_true by lia.
  replace (length p + length m - length m)%nat with (length p) by lia.
  rewrite drop_app_length. by apply bool_decide_true.
Qed.

Lemma isBold_wrapped m : isBold (lit "**" ++ m ++ lit "**") = true.
Proof.
  unfold isBold. rewrite startsWith_app.
  rewrite (app_assoc (lit "**") m (lit "**")), endsWith_app. done.
Qed.

Lemma startsWith_spec s m : startsWith s m = true ↔ ∃ q, s = m ++ q.
Proof.
  split.
  - unfold startsWith. case_bool_decide; [|done].
    intros Ht%bool_decide_eq_true.
    exists (drop (length m) s). by rewrite <- Ht at 1; rewrite take_drop.
  - intros [q ->]. apply startsWith_app.
Qed.

Lemma endsWith_spec s m : endsWith s m = true ↔ ∃ p, s = p ++ m.
Proof.
  split.
  - unfold endsWith. case_bool_decide; [|done].
    intros Ht%bool_decide_eq_true.
    exists (take (length s - length m) s).
    by rewrite <- Ht at 2; rewrite take_drop.
  - intros [p ->]. apply endsWith_app.
Qed.

(** A string of four or more units that starts and ends with the marker
    is the marker around an interior. *)
Lemma isBold_long s :
  isBold s = true → (4 ≤ len s)%Z → ∃ m, s = lit "**" ++ m ++ lit "**".
Proof.
  unfold isBold. intros [Hs He]%andb_true_iff Hlen.
  apply startsWith_spec in Hs as [q ->].
  apply endsWith_spec in He as [p Hp].
  assert (Hq : (2 ≤ length q)%nat).
  { unfold len in Hlen. rewrite length_app in Hlen.
    change (length (lit "**")) with 2%nat in Hlen. lia. }
  exists (take (length q - 2) q). f_equal.
  assert (Hlp : length p = length q).
  { apply (f_equal length) in Hp. rewrite !length_app in Hp.
    change (length (lit "**")) with 2%nat in Hp. lia. }
  assert (Hd : drop (length q - 2) q = lit "**").
  { apply (f_equal (drop (length p))) in Hp.
    rewrite drop_app_length in Hp. rewrite <- Hp.
    rewrite drop_app_ge by (change (length (lit "**")) with 2%nat; lia).
    change (length (lit "**")) with 2%nat. f_equal. lia. }
  rewrite <- Hd. by rewrite take_drop.
Qed.

(** The strings shorter than four units that pass the test of line 150
    are the two that consist of markers only. *)
Lemma isBold_short s :
  isBold s = true → (len s < 4)%Z → s = lit "**" ∨ s = lit "***".
Proof.
  unfold isBold, len. intros [Hs He]%andb_true_iff Hlen.
  apply startsWith_spec in Hs as [q ->].
  apply endsWith_spec in He as [p Hp].
  rewrite length_app in Hlen. change (length (lit "**")) with 2%nat in Hlen.
  destruct q as [|c [|d q]]; [by left| |simpl in Hlen; lia].
  right. destruct p as [|a [|b p]].
  - discriminate Hp.
  - cbv in Hp. by inversion Hp.
  - apply (f_equal length) in Hp. rewrite !length_app in Hp.
    change (length (lit "**")) with 2%nat in Hp. simpl in Hp. lia.
Qed.

End StringFacts.

(** ** The bold toggle *)

Section Toggle.

Implicit Types text p m q : jsstring.

(** The toggle on a text cut at the selection. *)
Lemma toggleBold_split p m q (a b : Z) :
  a = len p → b = (len p + len m)%Z →
  toggleBold (p ++ m ++ q) a b =
    if isBold m
    then (p ++ substring m 2 (len m - 2) ++ q, (a + len m - 4)%Z)
    else (p ++ lit "**" ++ m ++ lit "**" ++ q, (a + len m + 2)%Z).
Proof.
  intros Ha Hb. unfold toggleBold.
  rewrite (substring_middle p m q a b Ha Hb).
  rewrite (substring_before p m q a Ha).
  rewrite (substring_after p m q b Hb).
  done.
Qed.

Lemma toggleBoldSpec_split p m q (a b : Z) :
  a = len p → b = (len p + len m)%Z →
  toggleBoldSpec (p ++ m ++ q) a b =
    if isBold m && bool_decide (4 ≤ len m)%Z
    then (p ++ take (length m - 4) (drop 2 m) ++ q, (a + len m - 4)%Z)
    else (p ++ lit "**" ++ m ++ lit "**" ++ q, (a + len m + 2)%Z).
Proof.
  intros -> ->. unfold toggleBoldSpec, isBold.
  replace (Z.to_nat (len p + len m - len p)) with (length m)
    by (unfold len; lia).
  replace (Z.to_nat (len p)) with (length p) by (unfold len; lia).
  replace (Z.to_nat (len p + len m)) with (length (p ++ m))
    by (rewrite length_app; unfold len; lia).
  rewrite take_app_length, drop_app_length, take_app_length.
  rewrite (app_assoc p m q), drop_app_length. done.
Qed.

(** Stripping the markers of a wrapped span gives the interior back. *)
Lemma strip_wrapped m :
  substring (lit "**" ++ m ++ lit "**") 2
    (len (lit "**" ++ m ++ lit "**") - 2) = m.
Proof.
  apply substring_middle; [done|].
  rewrite !len_app. change (len (lit "**")) with 2%Z. lia.
Qed.

(** A selection that is not bold for the source is wrapped. *)
Lemma toggleBold_wrap text (a b : Z) :
  (0 ≤ a ≤ b)%Z → (b ≤ len text)%Z →
  isBold (substring text a b) = false →
  toggleBold text a b =
    (substring text 0 a ++ lit "**" ++ substring text a b ++ lit "**"
       ++ substringFrom text b,
     (a + len (substring text a b) + 2)%Z).
Proof. intros _ _ Hb. unfold toggleBold. by rewrite Hb. Qed.

(** A bold selection of four units or more is unwrapped: the source
    and the specification agree on it. *)
Lemma toggleBold_unwrap p m q (a b : Z) :
  a = len p → b = (len p + len m + 4)%Z →
  toggleBold (p ++ (lit "**" ++ m ++ lit "**") ++ q) a b
  = (p ++ m ++ q, (a + len m)%Z).
Proof.
  intros Ha Hb. rewrite toggleBold_split; [|done|].
  - rewrite isBold_wrapped, strip_wrapped. f_equal.
    rewrite !len_app. change (len (lit "**")) with 2%Z. lia.
  - rewrite !len_app. change (len (lit "**")) with 2%Z. lia.
Qed.

(** Outside the selections of two or three units that consist of
    markers only, the source computes what the specification says. *)
Lemma toggleBold_agrees text (a b : Z) :
  (0 ≤ a ≤ b)%Z → (b ≤ len text)%Z →
  (isBold (substring text a b) = true → 4 ≤ b - a)%Z →
  toggleBold text a b = toggleBoldSpec text a b.
Proof.
  intros Hab Hb Hlong.
  destruct (selection_split text a b Hab Hb) as (p & m & q & -> & Hp & Hm).
  assert (Hb' : b = (len p + len m)%Z) by lia.
  rewrite substring_middle in Hlong by done.
  rewrite toggleBold_split, toggleBoldSpec_split by done.
  destruct (isBold m) eqn:Hbold; simpl; [|done].
  specialize (Hlong eq_refl).
  rewrite bool_decide_true by lia.
  destruct (isBold_long m Hbold) as [i ->]; [lia|].
  rewrite strip_wrapped. do 3 f_equal.
  rewrite !length_app. change (length (lit "**")) with 2%nat.
  change (drop 2 (lit "**" ++ i ++ lit "**")) with (i ++ lit "**").
  replace (2 + (length i + 2) - 4)%nat with (length i) by lia.
  by rewrite take_app_length.
Qed.

(** The round trip, for every selection the source wraps. *)
Lemma toggleBold_roundtrip text (a b : Z) :
  (0 ≤ a ≤ b)%Z → (b ≤ len text)%Z →
  isBold (substring text a b) = false →
  fst (toggleBold (fst (toggleBold text a b)) a (b + 4)) = text.
Proof.
  intros Hab Hb Hplain.
  destruct (selection_split text a b Hab Hb) as (p & m & q & -> & Hp & Hm).
  assert (Hb' : b = (len p + len m)%Z) by lia.
  rewrite substring_middle in Hplain by done.
  rewrite toggleBold_split by done. rewrite Hplain. cbn [fst].
  replace (p ++ lit "**" ++ m ++ lit "**" ++ q)
    with (p ++ (lit "**" ++ m ++ lit "**") ++ q)
    by (by rewrite <- !app_assoc).
  rewrite toggleBold_unwrap; [done|done|lia].
Qed.

End Toggle.

(** C1 (the code departs from the claim).  A selection made of two or
    three marker characters starts and ends with the marker, so the
    test of line 150 sends it to the unwrapping branch although it is
    shorter than four units: on "**" the text is left as it is and the
    caret becomes start - 2, on "***" one star is left and the caret
    becomes start - 1, where the claim wraps both (giving "******" with
    caret 4 and "*******" with caret 5). *)
Theorem C1_marker_only_selection_is_unwrapped :
  toggleBold (lit "**") 0 2 = (lit "**", (-2)%Z)
  ∧ toggleBoldSpec (lit "**") 0 2 = (lit "******", 4%Z)
  ∧ toggleBold (lit "***") 0 3 = (lit "*", (-1)%Z)
  ∧ toggleBoldSpec (lit "***") 0 3 = (lit "*******", 5%Z).
Proof. repeat split; reflexivity. Qed.

(** C2 (the code departs from the claim).  In "**abcd" the selection
    [0,2) is "**", which is not bold for the claim (it is shorter than
    four units).  The first toggle takes the unwrapping branch and
    leaves the text as it is; the second toggle, on [0,6), wraps
    "**abcd", so the text after the two toggles is "****abcd**" and not
    the original. *)
Theorem C2_marker_only_selection_no_roundtrip :
  toggleBold (lit "**abcd") 0 2 = (lit "**abcd", (-2)%Z)
  ∧ fst (toggleBold (fst (toggleBold (lit "**abcd") 0 2)) 0 (2 + 4))
    = lit "****abcd**"
  ∧ fst (toggleBold (fst (toggleBold (lit "**abcd") 0 2)) 0 (2 + 4))
    ≠ lit "**abcd"
  ∧ fst (toggleBoldSpec (fst (toggleBoldSpec (lit "**abcd") 0 2)) 0 (2 + 4))
    = lit "**abcd".
Proof. repeat split; try reflexivity. discriminate. Qed.

(** C3, as the claim states it, fails: the second toggle of the example
    leaves the caret at 5, not at 0. *)
Lemma C3_caret_is_not_zero :
  ¬ (toggleBold (lit "hello world") 0 5 = (lit "**hello** world", 7%Z)
     ∧ toggleBold (lit "**hello** world") 0 9 = (lit "hello world", 0%Z)).
Proof. intros [_ H]. discriminate H. Qed.

(** C3 (amended).  For the text "hello world" and the selection [0,5)
    the toggle gives "**hello** world" with the caret at 7; the toggle
    on that result with the selection [0,9) gives "hello world" with
    the caret at 5 = 0 + 9 - 4, the end of the unwrapped word. *)
Theorem C3_hello_world_example :
  toggleBold (lit "hello world") 0 5 = (lit "**hello** world", 7%Z)
  ∧ toggleBold (lit "**hello** world") 0 9 = (lit "hello world", 5%Z).
Proof. split; reflexivity. Qed.

(** C10.  For a valid selection [start, end) both branches of the
    toggle rewrite the selected region only: the new text is
    text[0:start], then a middle part, then text[end:], so it has the
    first as a prefix and the second as a suffix. *)
Theorem C10_toggle_frame (text : jsstring) (start end_ : Z) :
  (0 ≤ start ≤ end_)%Z → (end_ ≤ len text)%Z →
  ∃ mid,
    fst (toggleBold text start end_)
    = take (Z.to_nat start) text ++ mid ++ drop (Z.to_nat end_) text
    ∧ take (Z.to_nat start) text `prefix_of` fst (toggleBold text start end_)
    ∧ drop (Z.to_nat end_) text `suffix_of` fst (toggleBold text start end_).
Proof.
  intros Hab Hb.
  destruct (selection_split text start end_ Hab Hb)
    as (p & m & q & -> & Hp & Hm).
  assert (Hb' : end_ = (len p + len m)%Z) by lia.
  replace (Z.to_nat start) with (length p) by (unfold len in Hp; lia).
  replace (Z.to_nat end_) with (length (p ++ m))
    by (rewrite length_app; unfold len in *; lia).
  rewrite take_app_length, (app_assoc p m q), drop_app_length.
  rewrite <- (app_assoc p m q), toggleBold_split by done.
  destruct (isBold m); cbn [fst].
  - exists (substring m 2 (len m - 2)). split; [done|]. split.
    + by eexists.
    + exists (p ++ substring m 2 (len m - 2)). by rewrite <- app_assoc.
  - exists (lit "**" ++ m ++ lit "**"). split.
    + by rewrite <- !app_assoc.
    + split; [by eexists|].
      exists (p ++ lit "**" ++ m ++ lit "**"). by rewrite <- !app_assoc.
Qed.

Lemma C10_toggle_frame_witness :
  ∃ mid,
    fst (toggleBold (lit "say **hi** now") 4 10)
    = take 4 (lit "say **hi** now") ++ mid ++ drop 10 (lit "say **hi** now")
    ∧ take 4 (lit "say **hi** now")
        `prefix_of` fst (toggleBold (lit "say **hi** now") 4 10)
    ∧ drop 10 (lit "say **hi** now")
        `suffix_of` fst (toggleBold (lit "say **hi** now") 4 10).
Proof.
  apply (C10_toggle_frame (lit "say **hi** now") 4 10);
    [lia | vm_compute; discriminate].
Defined.

(** ** Trimming *)

Section TrimFacts.

Implicit Types s w : jsstring.

Lemma trimStart_headNotWhite s : headNotWhite (trimStart s).
Proof.
  induction s as [|c s IH]; simpl; [done|].
  destruct (isWhiteSpace c) eqn:Hc; [done|]. exact Hc.
Qed.

Lemma trimStart_fixed s : headNotWhite s → trimStart s = s.
Proof. destruct s as [|c s]; simpl; [done|]. by intros ->. Qed.

Lemma trimStart_suffix s : ∃ w, s = w ++ trimStart s.
Proof.
  induction s as [|c s [w Hw]]; simpl.
  - by exists [].
  - destruct (isWhiteSpace c).
    + exists (c :: w). simpl. by rewrite <- Hw.
    + by exists [].
Qed.

Lemma trimEnd_prefix s : ∃ w, s = trimEnd s ++ w.
Proof.
  unfold trimEnd. destruct (trimStart_suffix (reverse s)) as [w Hw].
  exists (reverse w).
  rewrite <- reverse_app, <- Hw. by rewrite reverse_involutive.
Qed.

Lemma trimEnd_headNotWhite s : headNotWhite s → headNotWhite (trimEnd s).
Proof.
  intros Hs. destruct (trimEnd_prefix s) as [w Hw].
  destruct (trimEnd s) as [|c t]; [done|].
  rewrite Hw in Hs. exact Hs.
Qed.

Lemma trimEnd_idemp s : trimEnd (trimEnd s) = trimEnd s.
Proof.
  unfold trimEnd. rewrite reverse_involutive.
  by rewrite (trimStart_fixed _ (trimStart_headNotWhite _)).
Qed.

(** [trim] is idempotent: a trimmed name is its own trim. *)
Lemma trim_idemp s : trim (trim s) = trim s.
Proof.
  unfold trim at 1.
  rewrite (trimStart_fixed (trim s)).
  - apply trimEnd_idemp.
  - apply trimEnd_headNotWhite, trimStart_headNotWhite.
Qed.

Lemma truthy_true s : truthy s = true ↔ s ≠ [].
Proof. by destruct s. Qed.

End TrimFacts.

(** ** The store *)

Section Store.

Implicit Types c : list Shortcut.
Implicit Types n k q : jsstring.
Implicit Types st : State.

Lemma validationFails_false st :
  validationFails st = false
  ↔ trim (shortcutName st) ≠ [] ∧ trim (shortcutContent st) ≠ [].
Proof.
  unfold validationFails.
  rewrite orb_false_iff, !negb_false_iff, !truthy_true. done.
Qed.

Lemma handleSaveShortcut_shortcuts st :
  validationFails st = false →
  shortcuts (handleSaveShortcut st)
  = savedInto (shortcuts st) (shortcutName st) (shortcutContent st).
Proof.
  intros Hv. unfold handleSaveShortcut, savedInto, findIndex. rewrite Hv.
  destruct (list_find _ (shortcuts st)) as [[i x]|] eqn:Hf.
  - rewrite bool_decide_true by lia. simpl. by rewrite Nat2Z.id.
  - by rewrite bool_decide_false by lia.
Qed.

Lemma handleSaveShortcut_invalid st :
  validationFails st = true →
  shortcuts (handleSaveShortcut st) = shortcuts st.
Proof. intros Hv. unfold handleSaveShortcut. by rewrite Hv. Qed.

Lemma upsert_shortcuts st n k :
  trim n ≠ [] → trim k ≠ [] →
  shortcuts (upsert n k st) = savedInto (shortcuts st) n k.
Proof.
  intros Hn Hk. unfold upsert.
  rewrite handleSaveShortcut_shortcuts; [done|].
  by apply validationFails_false.
Qed.

Lemma savedAt_lt c n k : savedAt c n < length (savedInto c n k).
Proof.
  unfold savedAt, savedInto.
  destruct (list_find _ c) as [[i x]|] eqn:Hf.
  - apply list_find_Some in Hf as (Hi & _ & _).
    rewrite length_insert. by eapply lookup_lt_Some.
  - rewrite length_app. simpl. lia.
Qed.

(** After the save, the first entry named [trim n] is the saved one. *)
Lemma savedInto_find c n k :
  list_find (λ s, name s = trim n) (savedInto c n k)
  = Some (savedAt c n, {| name := trim n; content := k |}).
Proof.
  unfold savedAt, savedInto.
  destruct (list_find _ c) as [[i x]|] eqn:Hf.
  - apply list_find_Some in Hf as (Hi & Hx & Hleast).
    apply list_find_Some. split_and!.
    + apply list_lookup_insert_eq. by eapply lookup_lt_Some.
    + done.
    + intros j y Hj Hlt. rewrite list_lookup_insert_ne in Hj by lia. eauto.
  - rewrite list_find_app_r by done. simpl.
    rewrite decide_True by done. done.
Qed.

Lemma savedInto_lookup c n k :
  lookup (savedInto c n k) (trim n)
  = Some {| name := trim n; content := k |}.
Proof.
  unfold lookup, find.
  rewrite (list_find_ext _ (λ s, name s = trim n)).
  - by rewrite savedInto_find.
  - intros x. by rewrite trim_idemp.
Qed.

(** A second save under the same name rewrites the same position. *)
Lemma savedInto_twice c n k1 k2 :
  savedInto (savedInto c n k1) n k2
  = <[savedAt c n := {| name := trim n; content := k2 |}]> (savedInto c n k1).
Proof. unfold savedInto at 1. by rewrite savedInto_find. Qed.

Lemma savedAt_existing c n i x :
  c !! i = Some x → name x = trim n →
  (∀ j y, c !! j = Some y → j < i → name y ≠ trim n) →
  savedAt c n = i.
Proof.
  intros Hi Hx Hleast. unfold savedAt.
  by rewrite (proj2 (list_find_Some (λ s, name s = trim n) c i x)).
Qed.

(** The data model is kept by a save. *)
Lemma savedInto_namesTrimmed c n k :
  namesTrimmed c → namesTrimmed (savedInto c n k).
Proof.
  unfold namesTrimmed, savedInto. intros Hc.
  destruct (list_find _ c) as [[i x]|].
  - apply Forall_insert; [done|]. apply trim_idemp.
  - apply Forall_app. split; [done|].
    apply Forall_singleton, trim_idemp.
Qed.

Lemma savedInto_uniqueTrimmedNames c n k :
  namesTrimmed c → uniqueTrimmedNames c →
  uniqueTrimmedNames (savedInto c n k).
Proof.
  unfold namesTrimmed, uniqueTrimmedNames, savedInto. intros Ht Hu.
  destruct (list_find _ c) as [[i x]|] eqn:Hf.
  - apply list_find_Some in Hf as (Hi & Hx & _).
    rewrite list_fmap_insert. simpl. rewrite list_insert_id; [done|].
    rewrite list_lookup_fmap, Hi. simpl. by rewrite Hx.
  - apply list_find_None in Hf.
    rewrite fmap_app. simpl. apply NoDup_app. split_and!.
    + done.
    + intros t (s & -> & Hs)%list_elem_of_fmap Hin.
      apply list_elem_of_singleton in Hin.
      rewrite Forall_forall in Hf, Ht.
      apply (Hf s Hs). rewrite <- (Ht s Hs). by rewrite Hin, trim_idemp.
    + apply NoDup_singleton.
Qed.

Lemma savedInto_ShortcutCollection c n k :
  ShortcutCollection c → ShortcutCollection (savedInto c n k).
Proof.
  intros [Ht Hu]. split.
  - by apply savedInto_namesTrimmed.
  - by apply savedInto_uniqueTrimmedNames.
Qed.

(** In a collection with unique trimmed names, at most one entry bears
    a given trimmed name, and exactly one when some entry does. *)
Lemma countNamed_le_1 c n : uniqueTrimmedNames c → countNamed n c ≤ 1.
Proof.
  unfold uniqueTrimmedNames, countNamed.
  induction c as [|s c IH]; simpl; [lia|].
  intros [Hs Hc]%NoDup_cons. specialize (IH Hc).
  rewrite filter_cons. case_decide as Hn; simpl; [|done].
  assert (filter (λ s0, trim (name s0) = n) c = []) as ->; [|simpl; lia].
  destruct (filter _ c) as [|y r] eqn:Hr; [done|].
  assert (Hy : y ∈ filter (λ s0, trim (name s0) = n) c)
    by (rewrite Hr; apply list_elem_of_here).
  apply list_elem_of_filter in Hy as [Hyn Hy].
  destruct Hs. apply list_elem_of_fmap. exists y. split; [congruence|done].
Qed.

Lemma countNamed_ge_1 c n s :
  s ∈ c → trim (name s) = n → 1 ≤ countNamed n c.
Proof.
  unfold countNamed. intros Hs Hn.
  assert (Hin : s ∈ filter (λ s0, trim (name s0) = n) c)
    by (by apply list_elem_of_filter).
  destruct (filter _ c); [by apply not_elem_of_nil in Hin|simpl; lia].
Qed.

Lemma step_shortcuts st ev :
  shortcuts (step st ev) = shortcuts st
  ∨ shortcuts (step st ev) = []
  ∨ shortcuts (step st ev)
    = savedInto (shortcuts st) (shortcutName st) (shortcutContent st).
Proof.
  destruct ev as [v|v| |v|confirmed|e ta]; simpl; try by left.
  - destruct (validationFails st) eqn:Hv.
    + left. by apply handleSaveShortcut_invalid.
    + right; right. by apply handleSaveShortcut_shortcuts.
  - destruct confirmed; simpl; [right; by left|by left].
  - left. unfold handleKeyDown.
    destruct (_ && _); [|done]. destruct ta as [ta|]; [|done].
    by destruct (toggleBold _ _ _).
Qed.

Lemma ShortcutCollection_nil : ShortcutCollection [].
Proof. split; [apply Forall_nil_2|apply NoDup_nil_2]. Qed.

Lemma step_ShortcutCollection st ev :
  ShortcutCollection (shortcuts st) →
  ShortcutCollection (shortcuts (step st ev)).
Proof.
  intros Hc. destruct (step_shortcuts st ev) as [-> | [-> | ->]].
  - done.
  - apply ShortcutCollection_nil.
  - by apply savedInto_ShortcutCollection.
Qed.

(** Every collection the component builds from its first render
    satisfies the data model. *)
Lemma run_ShortcutCollection evs : ShortcutCollection (shortcuts (run evs)).
Proof.
  unfold run. induction evs as [|ev evs IH] using rev_ind; simpl.
  - apply ShortcutCollection_nil.
  - rewrite foldl_app. simpl. by apply step_ShortcutCollection.
Qed.

End Store.

Lemma exampleState_ShortcutCollection :
  ShortcutCollection (shortcuts exampleState).
Proof.
  split.
  - unfold namesTrimmed. simpl. repeat constructor.
  - unfold uniqueTrimmedNames. simpl.
    apply NoDup_cons. split.
    + intros Hin%list_elem_of_singleton. discriminate Hin.
    + apply NoDup_singleton.
Qed.

(** C4.  For every collection and every name and content whose trims
    are not empty, saving the pair and then looking the trimmed name up
    finds the entry with exactly that content: the test output is the
    content as typed, untrimmed. *)
Theorem C4_upsert_then_lookup (st : State) (n k : jsstring) :
  trim n ≠ [] → trim k ≠ [] →
  lookup (shortcuts (upsert n k st)) (trim n)
  = Some {| name := trim n; content := k |}
  ∧ testOutput (handleTestInputChange (trim n) (upsert n k st)) = k.
Proof.
  intros Hn Hk.
  assert (Hl : lookup (shortcuts (upsert n k st)) (trim n)
               = Some {| name := trim n; content := k |}).
  { rewrite upsert_shortcuts by done. apply savedInto_lookup. }
  split; [done|].
  unfold handleTestInputChange. simpl. by rewrite Hl.
Qed.

Lemma C4_upsert_then_lookup_witness :
  lookup (shortcuts (upsert (lit " .greet ") (lit " Hi! ") exampleState))
    (trim (lit " .greet "))
  = Some {| name := trim (lit " .greet "); content := lit " Hi! " |}
  ∧ testOutput
      (handleTestInputChange (trim (lit " .greet "))
         (upsert (lit " .greet ") (lit " Hi! ") exampleState))
    = lit " Hi! ".
Proof.
  apply (C4_upsert_then_lookup exampleState (lit " .greet ") (lit " Hi! "));
    vm_compute; discriminate.
Defined.

(** The load effect leaves the collection as it is, or installs the
    parsed one. *)
Lemma loadShortcuts_shortcuts
    (JSON_parse : jsstring → option (list Shortcut)) (read : GetItem)
    (st : State) :
  shortcuts (fst (loadShortcuts JSON_parse read st))
  = default (shortcuts st) (parsedCollection JSON_parse read).
Proof.
  destruct read as [|[raw|]]; [done| |done].
  unfold loadShortcuts, parsedCollection.
  destruct (truthy raw); [|done]. by destruct (JSON_parse raw).
Qed.

(** C5, as the claim states it, fails.  The invariant alone is not
    kept by a save: the search of line 73 compares the stored names as
    they are, so next to an entry stored under " a " a save of " a "
    appends an entry named "a", and two entries share the trimmed name
    "a".  Nor is it kept by the load effect, which installs whatever
    collection was parsed. *)
Lemma C5_invariant_alone_not_preserved :
  ¬ (∀ (st : State) (ev : Event),
       uniqueTrimmedNames (shortcuts st) →
       uniqueTrimmedNames (shortcuts (step st ev)))
  ∧ ¬ (∀ (JSON_parse : jsstring → option (list Shortcut)) (read : GetItem)
         (st : State),
         uniqueTrimmedNames (shortcuts st) →
         uniqueTrimmedNames
           (shortcuts (fst (loadShortcuts JSON_parse read st)))).
Proof.
  split.
  - intros H.
    specialize (H {| shortcutName := lit " a ";
                     shortcutContent := lit "y";
                     shortcuts := [ mkShortcut (lit " a ") (lit "x") ];
                     testInput := [];
                     testOutput := [];
                     message := None |} ClickSave).
    assert (Hu : uniqueTrimmedNames [ mkShortcut (lit " a ") (lit "x") ])
      by apply NoDup_singleton.
    apply H in Hu. vm_compute in Hu.
    apply NoDup_cons in Hu as [Hin _].
    apply Hin, list_elem_of_here.
  - intros H.
    specialize (H (λ _, Some [ mkShortcut (lit "a") (lit "x");
                               mkShortcut (lit "a") (lit "y") ])
                  (getItemReturns (Some (lit "[..]"))) initialState).
    assert (Hu : uniqueTrimmedNames (shortcuts initialState))
      by apply NoDup_nil_2.
    apply H in Hu. vm_compute in Hu.
    apply NoDup_cons in Hu as [Hin _].
    apply Hin, list_elem_of_here.
Qed.

(** C5 (amended).  On a collection whose stored names are all trimmed
    and in which no two entries share the same trimmed name, every
    event of the component (an edit of a field, a save, a test lookup,
    a clearing, a key press) gives such a collection again, and so
    does the load effect when the collection it parses from the
    storage, if it parses one, is such a collection.  In particular,
    after the same name is saved twice, the entry of that name sits
    where the first save put it, which is where an entry of that name
    sat before if there was one; it holds the second content, and it
    is the only entry bearing that name. *)
Theorem C5_unique_names_preserved
    (JSON_parse : jsstring → option (list Shortcut)) (read : GetItem)
    (st : State) (ev : Event) (n k1 k2 : jsstring) :
  ShortcutCollection (shortcuts st) →
  (∀ c, parsedCollection JSON_parse read = Some c → ShortcutCollection c) →
  trim n ≠ [] → trim k1 ≠ [] → trim k2 ≠ [] →
  let c1 := shortcuts (upsert n k1 st) in
  let c2 := shortcuts (upsert n k2 (upsert n k1 st)) in
  let i := savedAt (shortcuts st) n in
  ShortcutCollection (shortcuts (step st ev))
  ∧ ShortcutCollection (shortcuts (fst (loadShortcuts JSON_parse read st)))
  ∧ ShortcutCollection c1
  ∧ ShortcutCollection c2
  ∧ c1 !! i = Some {| name := trim n; content := k1 |}
  ∧ c2 = <[i := {| name := trim n; content := k2 |}]> c1
  ∧ c2 !! i = Some {| name := trim n; content := k2 |}
  ∧ countNamed (trim n) c2 = 1
  ∧ (∀ j s, shortcuts st !! j = Some s → trim (name s) = trim n → j = i).
Proof.
  intros Hc Hload Hn Hk1 Hk2. cbn zeta.
  rewrite (upsert_shortcuts (upsert n k1 st)) by done.
  rewrite !upsert_shortcuts by done.
  rewrite loadShortcuts_shortcuts.
  set (c := shortcuts st) in *.
  assert (Hc1 : ShortcutCollection (savedInto c n k1))
    by (by apply savedInto_ShortcutCollection).
  assert (Hc2 : ShortcutCollection (savedInto (savedInto c n k1) n k2))
    by (by apply savedInto_ShortcutCollection).
  assert (Hat : savedInto c n k1 !! savedAt c n
                = Some {| name := trim n; content := k1 |}).
  { pose proof (savedInto_find c n k1) as Hf.
    by apply list_find_Some in Hf as (? & _ & _). }
  assert (Hat2 : savedInto (savedInto c n k1) n k2 !! savedAt c n
                 = Some {| name := trim n; content := k2 |}).
  { rewrite savedInto_twice. apply list_lookup_insert_eq, savedAt_lt. }
  split_and!.
  - by apply step_ShortcutCollection.
  - destruct (parsedCollection JSON_parse read) as [parsed|]; simpl;
      [by apply Hload|done].
  - done.
  - done.
  - done.
  - apply savedInto_twice.
  - done.
  - apply Nat.le_antisymm.
    + apply countNamed_le_1, Hc2.
    + eapply countNamed_ge_1.
      * eapply list_elem_of_lookup_2, Hat2.
      * simpl. apply trim_idemp.
  - intros j s Hj Hs. destruct Hc as [Ht Hu].
    assert (Hname : name s = trim n).
    { rewrite <- Hs. symmetry.
      apply (Forall_lookup_1 _ _ _ _ Ht Hj). }
    unfold savedAt.
    destruct (list_find _ c) as [[i' x]|] eqn:Hf.
    + apply list_find_Some in Hf as (Hi' & Hx & _).
      apply (NoDup_lookup _ _ _ (trim n) Hu).
      * by rewrite list_lookup_fmap, Hj; simpl; rewrite Hs.
      * by rewrite list_lookup_fmap, Hi'; simpl; rewrite Hx, trim_idemp.
    + apply list_find_None in Hf.
      by destruct (Forall_lookup_1 _ _ _ _ Hf Hj).
Qed.

Lemma C5_unique_names_preserved_witness :
  let st := exampleState in
  let n := lit " .bye " in
  let c1 := shortcuts (upsert n (lit "one") st) in
  let c2 := shortcuts (upsert n (lit "two") (upsert n (lit "one") st)) in
  let i := savedAt (shortcuts st) n in
  ShortcutCollection (shortcuts (step st ClickSave))
  ∧ ShortcutCollection
      (shortcuts
         (fst (loadShortcuts parseStandIn
                 (getItemReturns (Some (lit "[...]"))) st)))
  ∧ ShortcutCollection c1
  ∧ ShortcutCollection c2
  ∧ c1 !! i = Some {| name := trim n; content := lit "one" |}
  ∧ c2 = <[i := {| name := trim n; content := lit "two" |}]> c1
  ∧ c2 !! i = Some {| name := trim n; content := lit "two" |}
  ∧ countNamed (trim n) c2 = 1
  ∧ (∀ j s, shortcuts st !! j = Some s → trim (name s) = trim n → j = i).
Proof.
  apply (C5_unique_names_preserved parseStandIn
           (getItemReturns (Some (lit "[...]")))
           exampleState ClickSave (lit " .bye ") (lit "one") (lit "two")).
  - exact exampleState_ShortcutCollection.
  - intros c Hc. vm_compute in Hc. injection Hc as <-.
    exact exampleState_ShortcutCollection.
  - vm_compute; discriminate.
  - vm_compute; discriminate.
  - vm_compute; discriminate.
Defined.

(** C6.  When the trimmed name or the content is empty, the save
    reports the validation error and changes nothing else: the
    collection and both fields are as they were. *)
Theorem C6_validation_error (st : State) (n k : jsstring) :
  trim n = [] ∨ k = [] →
  upsert n k st
  = {| shortcutName := n;
       shortcutContent := k;
       shortcuts := shortcuts st;
       testInput := testInput st;
       testOutput := testOutput st;
       message :=
         Some (mkMessage error
                 (lit "Both shortcut name and content are required.")) |}.
Proof.
  intros H. unfold upsert, handleSaveShortcut.
  assert (validationFails (setShortcutContent k (setShortcutName n st)) = true)
    as ->; [|done].
  unfold validationFails. simpl.
  destruct H as [-> | ->]; [done|]. apply orb_true_r.
Qed.

Lemma C6_validation_error_witness :
  upsert (lit "  ") (lit "x") exampleState
  = {| shortcutName := lit "  ";
       shortcutContent := lit "x";
       shortcuts := shortcuts exampleState;
       testInput := testInput exampleState;
       testOutput := testOutput exampleState;
       message :=
         Some (mkMessage error
                 (lit "Both shortcut name and content are required.")) |}.
Proof.
  apply (C6_validation_error exampleState (lit "  ") (lit "x")).
  left. reflexivity.
Defined.

(** C7.  The lookup is total.  When it finds an entry, the entry is in
    the collection, its stored name is unit for unit the trimmed
    query, and the test output is its content; when it finds none, no
    stored name equals the trimmed query and the test output is the
    not-found text. *)
Theorem C7_lookup_exact_or_not_found (st : State) (q : jsstring) :
  match lookup (shortcuts st) q with
  | Some s =>
      s ∈ shortcuts st ∧ name s = trim q
      ∧ testOutput (handleTestInputChange q st) = content s
  | None =>
      Forall (λ s, name s ≠ trim q) (shortcuts st)
      ∧ testOutput (handleTestInputChange q st) = notFoundText
  end.
Proof.
  unfold handleTestInputChange. simpl. unfold lookup, find.
  destruct (list_find _ (shortcuts st)) as [[i s]|] eqn:Hf; simpl.
  - apply list_find_Some in Hf as (Hi & Hs & _).
    split_and!; [by eapply list_elem_of_lookup_2|done|done].
  - apply list_find_None in Hf. done.
Qed.

(** The match is case-sensitive and not partial. *)
Example lookup_case_sensitive :
  lookup (shortcuts exampleState) (lit " .greet ")
  = Some {| name := lit ".greet"; content := lit "Hello" |}
  ∧ lookup (shortcuts exampleState) (lit ".Greet") = None
  ∧ lookup (shortcuts exampleState) (lit ".gre") = None.
Proof. repeat split; reflexivity. Qed.

(** C8.  Once the dialog is confirmed, clearing gives the empty
    collection whatever the collection was, and every lookup after it,
    for the names that were stored and for any other query, finds
    nothing.  (A declined dialog leaves the state as it is.) *)
Theorem C8_clear_all (st : State) (q : jsstring) :
  shortcuts (handleClearAllShortcuts true st) = []
  ∧ lookup (shortcuts (handleClearAllShortcuts true st)) q = None
  ∧ testOutput (handleTestInputChange q (handleClearAllShortcuts true st))
    = notFoundText
  ∧ Forall
      (λ s, testOutput
              (handleTestInputChange (name s)
                 (handleClearAllShortcuts true st)) = notFoundText)
      (shortcuts st)
  ∧ handleClearAllShortcuts false st = st.
Proof.
  split_and!; try done.
  apply Forall_forall. done.
Qed.

(** ** Loading *)

(** In the two cases of the claim the effect leaves the collection as
    it is, whatever the state. *)
Lemma loadShortcuts_keeps JSON_parse (raw : option jsstring) (st : State) :
  from_option (λ s, JSON_parse s = None) True raw →
  shortcuts (fst (loadShortcuts JSON_parse (getItemReturns raw) st))
  = shortcuts st.
Proof.
  destruct raw as [s|]; simpl; [|done].
  intros ->. by destruct (truthy s).
Qed.

(** C9, as the claim states it, fails: an empty persisted string cannot
    be parsed, but the test of line 44 takes it for a missing value, so
    nothing is parsed and no warning is given. *)
Lemma C9_empty_string_gives_no_warning :
  ¬ (∀ (JSON_parse : jsstring → option (list Shortcut)) (raw : jsstring),
       JSON_parse raw = None →
       shortcuts
         (fst (loadShortcuts JSON_parse (getItemReturns (Some raw))
                 initialState)) = []
       ∧ message
           (fst (loadShortcuts JSON_parse (getItemReturns (Some raw))
                   initialState)) = Some loadWarning).
Proof.
  intros H.
  destruct (H parseEmptyArrayOnly [] eq_refl) as [_ Hm].
  discriminate Hm.
Qed.

(** C9 (amended).  At mount, a missing key leaves the empty collection
    and gives no warning.  A persisted string that cannot be parsed
    leaves the empty collection too; when the string is not empty the
    failure is caught, logged and shown as an error message, and when
    it is empty it is skipped like a missing key.  The effect is a
    total function: nothing is thrown to the caller. *)
Theorem C9_load_missing_or_corrupt
    (JSON_parse : jsstring → option (list Shortcut)) (raw : jsstring) :
  JSON_parse raw = None →
  let loaded :=
    loadShortcuts JSON_parse (getItemReturns (Some raw)) initialState in
  loadShortcuts JSON_parse (getItemReturns None) initialState
  = (initialState, [])
  ∧ shortcuts (fst loaded) = []
  ∧ if truthy raw
    then message (fst loaded) = Some loadWarning
         ∧ snd loaded = [lit "Failed to load shortcuts from localStorage:"]
    else loaded = (initialState, []).
Proof.
  intros Hp. cbn zeta. split_and!.
  - done.
  - by rewrite (loadShortcuts_keeps JSON_parse (Some raw)).
  - unfold loadShortcuts. rewrite Hp. by destruct (truthy raw).
Qed.

Lemma C9_load_missing_or_corrupt_witness :
  let loaded :=
    loadShortcuts parseEmptyArrayOnly (getItemReturns (Some (lit "[{oops")))
      initialState in
  loadShortcuts parseEmptyArrayOnly (getItemReturns None) initialState
  = (initialState, [])
  ∧ shortcuts (fst loaded) = []
  ∧ message (fst loaded) = Some loadWarning
  ∧ snd loaded = [lit "Failed to load shortcuts from localStorage:"].
Proof.
  apply (C9_load_missing_or_corrupt parseEmptyArrayOnly (lit "[{oops")).
  reflexivity.
Defined.

(** * Further properties *)

(** ** Rendering *)

Section Render.

Implicit Types s p m q group rest : jsstring.

Lemma matchUntilMarker_unfold s :
  matchUntilMarker s =
    if startsWith s (lit "**") then Some ([], drop 2 s)
    else
      match s with
      | [] => None
      | c :: s' =>
          if isLineTerminator c then None
          else
            match matchUntilMarker s' with
            | Some (group, rest) => Some (c :: group, rest)
            | None => None
            end
      end.
Proof. by destruct s. Qed.

(** A match is the captured group, the closing marker and the rest;
    the group holds no line terminator. *)
Lemma matchUntilMarker_Some s group rest :
  matchUntilMarker s = Some (group, rest) →
  s = group ++ lit "**" ++ rest ∧ oneLine group.
Proof.
  revert group rest. induction s as [|c s IH]; intros group rest.
  - rewrite matchUntilMarker_unfold. by cbn.
  - rewrite matchUntilMarker_unfold.
    destruct (startsWith (c :: s) (lit "**")) eqn:Hst.
    + intros [= <- <-]. split; [|by apply Forall_nil_2].
      apply startsWith_spec in Hst as [q Hq].
      change (lit "**" ++ q) with (42%N :: 42%N :: q) in Hq.
      injection Hq as -> ->. reflexivity.
    + destruct (isLineTerminator c) eqn:Hc; [done|].
      destruct (matchUntilMarker s) as [[g r]|]; [|done].
      intros [= <- <-]. destruct (IH g r eq_refl) as [-> Hg].
      split; [done|]. by apply Forall_cons.
Qed.

Lemma matchUntilMarker_shorter s group rest :
  matchUntilMarker s = Some (group, rest) → length rest + 2 ≤ length s.
Proof.
  intros [-> _]%matchUntilMarker_Some.
  rewrite !length_app. change (length (lit "**")) with 2. lia.
Qed.

(** The counter of [replaceBold] is never used up from the length of
    the text on. *)
Lemma replaceBold_fuel_eq (f1 f2 : nat) s :
  length s ≤ f1 → length s ≤ f2 → replaceBold f1 s = replaceBold f2 s.
Proof.
  revert f2 s. induction f1 as [|f1 IH]; intros f2 s H1 H2.
  - destruct s; [by destruct f2|simpl in H1; lia].
  - destruct s as [|c s]; [by destruct f2|].
    destruct f2 as [|f2]; [simpl in H2; lia|].
    simpl in H1, H2. cbn [replaceBold].
    destruct (startsWith (c :: s) (lit "**")) eqn:Hst.
    + destruct (matchUntilMarker (drop 2 (c :: s))) as [[g r]|] eqn:Hm.
      * apply matchUntilMarker_shorter in Hm.
        rewrite length_drop in Hm. simpl length in Hm.
        do 3 f_equal. apply IH; lia.
      * f_equal. apply IH; lia.
    + f_equal. apply IH; lia.
Qed.

Lemma replaceBold_fuel (f : nat) s :
  length s ≤ f → replaceBold f s = renderContent s.
Proof. intros H. by apply replaceBold_fuel_eq. Qed.

Lemma renderContent_nil : renderContent [] = [].
Proof. done. Qed.

(** One step of the search. *)
Lemma renderContent_cons c s :
  renderContent (c :: s) =
    if startsWith (c :: s) (lit "**") then
      match matchUntilMarker (drop 2 (c :: s)) with
      | Some (group, rest) =>
          lit "<strong>" ++ group ++ lit "</strong>" ++ renderContent rest
      | None => c :: renderContent s
      end
    else c :: renderContent s.
Proof.
  unfold renderContent at 1. cbn [length replaceBold].
  destruct (startsWith (c :: s) (lit "**")) eqn:Hst.
  - destruct (matchUntilMarker (drop 2 (c :: s))) as [[g r]|] eqn:Hm.
    + apply matchUntilMarker_shorter in Hm.
      rewrite length_drop in Hm. simpl length in Hm.
      rewrite replaceBold_fuel by lia. done.
    + by rewrite replaceBold_fuel.
  - by rewrite replaceBold_fuel.
Qed.

Lemma startsWith_marker_cons c s :
  startsWith (c :: s) (lit "**") = true → c = 42%N.
Proof. intros [q Hq]%startsWith_spec. by injection Hq. Qed.

Lemma renderContent_other c s :
  c ≠ 42%N → renderContent (c :: s) = c :: renderContent s.
Proof.
  intros Hc. rewrite renderContent_cons.
  destruct (startsWith (c :: s) (lit "**")) eqn:Hst; [|done].
  by apply startsWith_marker_cons in Hst.
Qed.

(** Text without stars is copied, whatever follows it. *)
Lemma renderContent_starFree_app p s :
  starFree p → renderContent (p ++ s) = p ++ renderContent s.
Proof.
  induction 1 as [|c p Hc _ IH]; [done|].
  simpl. rewrite renderContent_other by done. by rewrite IH.
Qed.

Lemma matchUntilMarker_group m q :
  starFree m → oneLine m → matchUntilMarker (m ++ lit "**" ++ q) = Some (m, q).
Proof.
  intros Hs. induction Hs as [|c m Hc _ IH]; intros Hl.
  - rewrite matchUntilMarker_unfold, app_nil_l. by rewrite startsWith_app.
  - apply Forall_cons in Hl as [Hl1 Hl2].
    rewrite matchUntilMarker_unfold, <- app_comm_cons.
    destruct (startsWith _ _) eqn:Hst;
      [by apply startsWith_marker_cons in Hst|].
    by rewrite Hl1, IH.
Qed.

(** A line terminator before any star stops the match. *)
Lemma matchUntilMarker_broken m c s :
  starFree m → isLineTerminator c = true →
  matchUntilMarker (m ++ c :: s) = None.
Proof.
  intros Hs Hc. induction Hs as [|d m Hd _ IH].
  - rewrite matchUntilMarker_unfold, app_nil_l.
    destruct (startsWith _ _) eqn:Hst.
    + apply startsWith_marker_cons in Hst. by subst.
    + by rewrite Hc.
  - rewrite matchUntilMarker_unfold, <- app_comm_cons.
    destruct (startsWith _ _) eqn:Hst;
      [by apply startsWith_marker_cons in Hst|].
    rewrite IH. by destruct (isLineTerminator d).
Qed.

(** Without a closing marker there is no match. *)
Lemma matchUntilMarker_None s :
  ¬ containsMarker s → matchUntilMarker s = None.
Proof.
  intros Hn. destruct (matchUntilMarker s) as [[g r]|] eqn:Hm; [|done].
  apply matchUntilMarker_Some in Hm as [-> _]. destruct Hn. by exists g, r.
Qed.

Lemma containsMarker_cons c s : containsMarker s → containsMarker (c :: s).
Proof. intros (p & q & ->). by exists (c :: p), q. Qed.

Lemma hasMarker_spec s : hasMarker s = true ↔ containsMarker s.
Proof.
  split.
  - induction s as [|c s IH]; [done|]. cbn [hasMarker].
    intros [Hst|Hs]%orb_true_iff.
    + apply startsWith_spec in Hst as [q ->]. by exists [], q.
    + by apply containsMarker_cons, IH.
  - intros (p & q & ->). induction p as [|c p IH].
    + reflexivity.
    + rewrite <- app_comm_cons. cbn [hasMarker]. rewrite IH. apply orb_true_r.
Qed.

Lemma hasMarker_false s : hasMarker s = false → ¬ containsMarker s.
Proof. intros Hf Hc%hasMarker_spec. congruence. Qed.

Lemma starFree_no_marker s : starFree s → ¬ containsMarker s.
Proof.
  intros Hs (p & q & ->).
  apply Forall_app in Hs as [_ Hs]. by apply Forall_cons in Hs as [? _].
Qed.

Lemma renderContent_id s : ¬ containsMarker s → renderContent s = s.
Proof.
  induction s as [|c s IH]; intros Hn; [done|].
  rewrite renderContent_cons.
  destruct (startsWith (c :: s) (lit "**")) eqn:Hst.
  - destruct Hn. apply startsWith_spec in Hst as [q ->]. by exists [], q.
  - rewrite IH; [done|]. intros H. by apply Hn, containsMarker_cons.
Qed.

End Render.

(** X1.  A text that nowhere contains the marker is rendered as it is:
    nothing is added, removed or escaped. *)
Theorem renderContent_without_marker (s : jsstring) :
  ¬ containsMarker s → renderContent s = s.
Proof. apply renderContent_id. Qed.

Lemma renderContent_without_marker_witness :
  renderContent (lit "2 * 3 <b>six</b>") = lit "2 * 3 <b>six</b>".
Proof.
  apply (renderContent_without_marker (lit "2 * 3 <b>six</b>")).
  apply hasMarker_false. reflexivity.
Defined.

Section RenderSpans.

Implicit Types s p m q : jsstring.

Lemma starFree_not_bold m : starFree m → isBold m = false.
Proof.
  intros Hm. unfold isBold.
  destruct (startsWith m (lit "**")) eqn:Hst; [|done].
  apply startsWith_spec in Hst as [q ->].
  by apply Forall_cons in Hm as [? _].
Qed.

Lemma starFree_lineTerminator c : isLineTerminator c = true → c ≠ 42%N.
Proof. by intros Hc ->. Qed.

(** An opening marker that finds no closing one is copied. *)
Lemma renderContent_unmatched s :
  matchUntilMarker s = None → head s ≠ Some 42%N →
  renderContent (lit "**" ++ s) = lit "**" ++ renderContent s.
Proof.
  intros Hm Hh.
  change (lit "**" ++ s) with (42%N :: 42%N :: s).
  rewrite renderContent_cons.
  change (drop 2 (42%N :: 42%N :: s)) with s. rewrite Hm.
  change (startsWith (42%N :: 42%N :: s) (lit "**")) with true. cbn match.
  rewrite renderContent_cons.
  destruct (startsWith (42%N :: s) (lit "**")) eqn:Hst; [|done].
  apply startsWith_spec in Hst as [q Hq].
  change (lit "**" ++ q) with (42%N :: 42%N :: q) in Hq.
  injection Hq as ->. by destruct Hh.
Qed.

Lemma starFree_head s : starFree s → head s ≠ Some 42%N.
Proof. destruct 1 as [|c s Hc _]; simpl; congruence. Qed.

Lemma starFree_head_app m c s :
  starFree m → c ≠ 42%N → head (m ++ c :: s) ≠ Some 42%N.
Proof. destruct 1 as [|d m Hd _]; simpl; congruence. Qed.

Lemma renderContent_strong p m q :
  starFree p → starFree m → oneLine m →
  renderContent (p ++ lit "**" ++ m ++ lit "**" ++ q)
  = p ++ lit "<strong>" ++ m ++ lit "</strong>" ++ renderContent q.
Proof.
  intros Hp Hm Hl. rewrite renderContent_starFree_app by done. f_equal.
  change (lit "**" ++ m ++ lit "**" ++ q)
    with (42%N :: 42%N :: m ++ lit "**" ++ q).
  rewrite renderContent_cons.
  change (drop 2 (42%N :: 42%N :: m ++ lit "**" ++ q))
    with (m ++ lit "**" ++ q).
  by rewrite matchUntilMarker_group.
Qed.

End RenderSpans.

(** X2.  A span between two markers whose interior has no star and
    no line terminator becomes a [<strong>] element holding the
    interior as it is; star-free text before it is copied and the
    search goes on after the closing marker. *)
Theorem renderContent_span (p m q : jsstring) :
  starFree p → starFree m → oneLine m →
  renderContent (p ++ lit "**" ++ m ++ lit "**" ++ q)
  = p ++ lit "<strong>" ++ m ++ lit "</strong>" ++ renderContent q.
Proof. apply renderContent_strong. Qed.

Lemma renderContent_span_witness :
  renderContent (lit "say " ++ lit "**" ++ lit "hi <there>" ++ lit "**"
                   ++ lit " and **bye**")
  = lit "say " ++ lit "<strong>" ++ lit "hi <there>" ++ lit "</strong>"
      ++ renderContent (lit " and **bye**").
Proof.
  apply (renderContent_span (lit "say ") (lit "hi <there>")
           (lit " and **bye**"));
    by repeat constructor.
Defined.

(** X3.  The dot of the pattern does not match a line terminator: a
    span whose interior holds one is not rendered bold, and when the
    rest of the text has no star the text comes out unchanged. *)
Theorem renderContent_line_break (p m q : jsstring) :
  starFree p → starFree m → starFree q →
  Exists (λ c, isLineTerminator c = true) m →
  renderContent (p ++ lit "**" ++ m ++ lit "**" ++ q)
  = p ++ lit "**" ++ m ++ lit "**" ++ q.
Proof.
  intros Hp Hm Hq (c & Hin & Hc)%Exists_exists.
  apply list_elem_of_split in Hin as (m1 & m2 & ->).
  apply Forall_app in Hm as [Hm1 Hm2].
  rewrite renderContent_starFree_app by done. f_equal.
  rewrite renderContent_unmatched.
  - f_equal.
    assert (Hc42 : c ≠ 42%N) by (by apply starFree_lineTerminator).
    rewrite renderContent_starFree_app
      by (unfold starFree; apply Forall_app; split; done).
    f_equal. rewrite renderContent_unmatched.
    + f_equal. by apply renderContent_id, starFree_no_marker.
    + by apply matchUntilMarker_None, starFree_no_marker.
    + by apply starFree_head.
  - rewrite <- app_assoc, <- app_comm_cons. by apply matchUntilMarker_broken.
  - rewrite <- app_assoc, <- app_comm_cons.
    by apply starFree_head_app, starFree_lineTerminator.
Qed.

Lemma renderContent_line_break_witness :
  renderContent (lit "a " ++ lit "**" ++ [98; 10; 99]%N ++ lit "**" ++ lit " d")
  = lit "a " ++ lit "**" ++ [98; 10; 99]%N ++ lit "**" ++ lit " d".
Proof.
  apply (renderContent_line_break (lit "a ") [98; 10; 99]%N (lit " d")).
  - by repeat constructor.
  - by repeat constructor.
  - by repeat constructor.
  - apply Exists_cons_tl, Exists_cons_hd. reflexivity.
Defined.

(** X4.  Rendering goes with the toggle: when the selected text has no
    star and no line terminator, and the text before it no star, the
    content the toggle produces renders with the selection as a
    [<strong>] element. *)
Theorem renderContent_toggleBold (p m q : jsstring) (start end_ : Z) :
  start = len p → end_ = (len p + len m)%Z →
  starFree p → starFree m → oneLine m →
  renderContent (fst (toggleBold (p ++ m ++ q) start end_))
  = p ++ lit "<strong>" ++ m ++ lit "</strong>" ++ renderContent q.
Proof.
  intros Ha Hb Hp Hm Hl.
  rewrite toggleBold_split by done.
  rewrite starFree_not_bold by done. cbn [fst].
  by apply renderContent_strong.
Qed.

Lemma renderContent_toggleBold_witness :
  renderContent (fst (toggleBold (lit "hello " ++ lit "big" ++ lit " world") 6 9))
  = lit "hello " ++ lit "<strong>" ++ lit "big" ++ lit "</strong>"
      ++ renderContent (lit " world").
Proof.
  apply (renderContent_toggleBold (lit "hello ") (lit "big") (lit " world") 6 9);
    [reflexivity | reflexivity | by repeat constructor ..].
Defined.

(** ** More on the bold toggle *)

(** X5.  When the selection is not bold for the test of line 150, the
    new content is four units longer, and the caret is placed right
    after the selected text, in front of the closing marker. *)
Theorem toggleBold_wrap_caret (text : jsstring) (start end_ : Z) :
  (0 ≤ start ≤ end_)%Z → (end_ ≤ len text)%Z →
  isBold (substring text start end_) = false →
  len (fst (toggleBold text start end_)) = (len text + 4)%Z
  ∧ snd (toggleBold text start end_) = (end_ + 2)%Z
  ∧ take (Z.to_nat (snd (toggleBold text start end_)))
      (fst (toggleBold text start end_))
    = take (Z.to_nat start) text ++ lit "**" ++ substring text start end_.
Proof.
  intros Hab Hb Hplain.
  destruct (selection_split text start end_ Hab Hb)
    as (p & m & q & -> & Hp & Hm).
  assert (Hb' : end_ = (len p + len m)%Z) by lia.
  rewrite substring_middle in * by done.
  rewrite toggleBold_split by done. rewrite Hplain. cbn [fst snd].
  split_and!.
  - rewrite !len_app. change (len (lit "**")) with 2%Z. lia.
  - lia.
  - replace (Z.to_nat start) with (length p) by (unfold len in Hp; lia).
    rewrite take_app_length.
    replace (Z.to_nat (start + len m + 2))
      with (length (p ++ lit "**" ++ m)).
    + replace (p ++ lit "**" ++ m ++ lit "**" ++ q)
        with ((p ++ lit "**" ++ m) ++ lit "**" ++ q)
        by (by rewrite <- !app_assoc).
      by rewrite take_app_length.
    + rewrite !length_app. change (length (lit "**")) with 2.
      unfold len in *. lia.
Qed.

Lemma toggleBold_wrap_caret_witness :
  len (fst (toggleBold (lit "one two three") 4 7)) = (len (lit "one two three") + 4)%Z
  ∧ snd (toggleBold (lit "one two three") 4 7) = (7 + 2)%Z
  ∧ take (Z.to_nat (snd (toggleBold (lit "one two three") 4 7)))
      (fst (toggleBold (lit "one two three") 4 7))
    = take (Z.to_nat 4) (lit "one two three") ++ lit "**"
        ++ substring (lit "one two three") 4 7.
Proof.
  apply (toggleBold_wrap_caret (lit "one two three") 4 7);
    [lia | vm_compute; discriminate | reflexivity].
Defined.

(** X6.  When the selection starts and ends with the marker and has
    four units or more, the markers are removed around its interior,
    the text outside the selection stays, and the caret is placed
    right after the interior. *)
Theorem toggleBold_unwrap_caret (text : jsstring) (start end_ : Z) :
  (0 ≤ start ≤ end_)%Z → (end_ ≤ len text)%Z →
  isBold (substring text start end_) = true → (4 ≤ end_ - start)%Z →
  ∃ m,
    substring text start end_ = lit "**" ++ m ++ lit "**"
    ∧ toggleBold text start end_
      = (take (Z.to_nat start) text ++ m ++ drop (Z.to_nat end_) text,
         (start + len m)%Z)
    ∧ len (fst (toggleBold text start end_)) = (len text - 4)%Z.
Proof.
  intros Hab Hb Hbold Hlong.
  destruct (selection_split text start end_ Hab Hb)
    as (p & s & q & -> & Hp & Hs).
  assert (Hb' : end_ = (len p + len s)%Z) by lia.
  rewrite substring_middle in * by done.
  destruct (isBold_long s Hbold) as [m ->]; [lia|].
  exists m. split; [done|].
  assert (Hlen : len (lit "**" ++ m ++ lit "**") = (len m + 4)%Z).
  { rewrite !len_app. change (len (lit "**")) with 2%Z. lia. }
  rewrite toggleBold_unwrap by (done || lia).
  replace (Z.to_nat start) with (length p) by (unfold len in Hp; lia).
  replace (Z.to_nat end_) with (length (p ++ lit "**" ++ m ++ lit "**"))
    by (rewrite length_app; unfold len in *; lia).
  rewrite take_app_length.
  rewrite (app_assoc p (lit "**" ++ m ++ lit "**") q), drop_app_length.
  split; [done|]. cbn [fst].
  rewrite !len_app. change (len (lit "**")) with 2%Z. lia.
Qed.

Lemma toggleBold_unwrap_caret_witness :
  ∃ m,
    substring (lit "a **b** c") 2 7 = lit "**" ++ m ++ lit "**"
    ∧ toggleBold (lit "a **b** c") 2 7
      = (take (Z.to_nat 2) (lit "a **b** c") ++ m
           ++ drop (Z.to_nat 7) (lit "a **b** c"),
         (2 + len m)%Z)
    ∧ len (fst (toggleBold (lit "a **b** c") 2 7))
      = (len (lit "a **b** c") - 4)%Z.
Proof.
  apply (toggleBold_unwrap_caret (lit "a **b** c") 2 7);
    [lia | vm_compute; discriminate | reflexivity | lia].
Defined.

(** X7.  With an empty selection (a bare caret) the toggle inserts the
    two markers at the caret and puts the caret between them. *)
Theorem toggleBold_collapsed (text : jsstring) (start : Z) :
  (0 ≤ start ≤ len text)%Z →
  toggleBold text start start
  = (take (Z.to_nat start) text ++ lit "****" ++ drop (Z.to_nat start) text,
     (start + 2)%Z).
Proof.
  intros Ha.
  destruct (selection_split text start start) as (p & m & q & -> & Hp & Hm);
    [lia | lia |].
  assert (m = []) as ->.
  { destruct m; [done|]. unfold len in Hm. simpl in Hm. lia. }
  rewrite toggleBold_split by (done || (change (len []) with 0%Z; lia)).
  change (isBold []) with false. cbn match.
  replace (Z.to_nat start) with (length p) by (unfold len in Hp; lia).
  rewrite app_nil_l, take_app_length, drop_app_length.
  change (len []) with 0%Z. f_equal. lia.
Qed.

Lemma toggleBold_collapsed_witness :
  toggleBold (lit "ab") 1 1
  = (take (Z.to_nat 1) (lit "ab") ++ lit "****" ++ drop (Z.to_nat 1) (lit "ab"),
     (1 + 2)%Z).
Proof.
  apply (toggleBold_collapsed (lit "ab") 1). vm_compute. split; discriminate.
Defined.

(** X8.  The round trip from the bold side: unwrapping a bold span of
    four units or more whose interior is not itself bold, and then
    toggling the interior (the selection shortened by the four marker
    units), gives the original text back. *)
Theorem toggleBold_unwrap_roundtrip (text : jsstring) (start end_ : Z) :
  (0 ≤ start ≤ end_)%Z → (end_ ≤ len text)%Z →
  isBold (substring text start end_) = true → (4 ≤ end_ - start)%Z →
  isBold (substring text (start + 2) (end_ - 2)) = false →
  fst (toggleBold (fst (toggleBold text start end_)) start (end_ - 4)) = text.
Proof.
  intros Hab Hb Hbold Hlong Hinner.
  destruct (selection_split text start end_ Hab Hb)
    as (p & s & q & -> & Hp & Hs).
  assert (Hb' : end_ = (len p + len s)%Z) by lia.
  rewrite substring_middle in Hbold by done.
  destruct (isBold_long s Hbold) as [m ->]; [lia|].
  assert (Hlen : len (lit "**" ++ m ++ lit "**") = (len m + 4)%Z).
  { rewrite !len_app. change (len (lit "**")) with 2%Z. lia. }
  assert (Hm : substring (p ++ (lit "**" ++ m ++ lit "**") ++ q)
                 (start + 2) (end_ - 2) = m).
  { replace (p ++ (lit "**" ++ m ++ lit "**") ++ q)
      with ((p ++ lit "**") ++ m ++ lit "**" ++ q)
      by (by rewrite <- !app_assoc).
    apply substring_middle.
    - rewrite len_app. change (len (lit "**")) with 2%Z. lia.
    - rewrite len_app. change (len (lit "**")) with 2%Z. lia. }
  rewrite Hm in Hinner.
  rewrite toggleBold_unwrap by (done || lia). cbn [fst].
  rewrite toggleBold_split by (done || lia). rewrite Hinner. cbn [fst].
  by rewrite <- !app_assoc.
Qed.

Lemma toggleBold_unwrap_roundtrip_witness :
  fst (toggleBold (fst (toggleBold (lit "a **b** c") 2 7)) 2 (7 - 4))
  = lit "a **b** c".
Proof.
  apply (toggleBold_unwrap_roundtrip (lit "a **b** c") 2 7);
    [lia | vm_compute; discriminate | reflexivity | lia | reflexivity].
Defined.

(** X9.  A selection that is exactly one marker, or three stars,
    passes the test of line 150 although it holds no interior: on the
    marker the text is left as it is and the caret moves two units
    before the selection; on three stars one star is left and the
    caret moves one unit before the selection. *)
Theorem toggleBold_marker_only (p q : jsstring) (start : Z) :
  start = len p →
  toggleBold (p ++ lit "**" ++ q) start (start + 2)
  = (p ++ lit "**" ++ q, (start - 2)%Z)
  ∧ toggleBold (p ++ lit "***" ++ q) start (start + 3)
    = (p ++ lit "*" ++ q, (start - 1)%Z).
Proof.
  intros ->. split.
  - rewrite toggleBold_split by done.
    change (isBold (lit "**")) with true. cbn match.
    change (substring (lit "**") 2 (len (lit "**") - 2)) with (lit "**").
    change (len (lit "**")) with 2%Z. f_equal. lia.
  - rewrite toggleBold_split by done.
    change (isBold (lit "***")) with true. cbn match.
    change (substring (lit "***") 2 (len (lit "***") - 2)) with (lit "*").
    change (len (lit "***")) with 3%Z. f_equal. lia.
Qed.

Lemma toggleBold_marker_only_witness :
  toggleBold (lit "x" ++ lit "**" ++ lit "y") 1 (1 + 2)
  = (lit "x" ++ lit "**" ++ lit "y", (1 - 2)%Z)
  ∧ toggleBold (lit "x" ++ lit "***" ++ lit "y") 1 (1 + 3)
    = (lit "x" ++ lit "*" ++ lit "y", (1 - 1)%Z).
Proof. apply (toggleBold_marker_only (lit "x") (lit "y") 1). reflexivity. Defined.

(** ** More on the store *)

Section StoreMore.

Implicit Types c : list Shortcut.
Implicit Types n k q v : jsstring.
Implicit Types st : State.

Lemma list_find_name_None c v :
  list_find (λ s, name s = v) c = None ↔ v ∉ name <$> c.
Proof.
  rewrite list_find_None, Forall_forall. split.
  - intros Hf (s & -> & Hs)%list_elem_of_fmap. by apply (Hf s).
  - intros Hn s Hs Hv. apply Hn, list_elem_of_fmap. by exists s.
Qed.

Lemma savedInto_other c n k j :
  j ≠ savedAt c n → savedInto c n k !! j = c !! j.
Proof.
  unfold savedAt, savedInto. intros Hj.
  destruct (list_find _ c) as [[i x]|].
  - by apply list_lookup_insert_ne.
  - destruct (decide (j < length c)).
    + by apply lookup_app_l.
    + rewrite !lookup_ge_None_2; [done|lia|].
      rewrite length_app. simpl. lia.
Qed.

Lemma savedInto_length c n k :
  length (savedInto c n k)
  = if bool_decide (trim n ∈ name <$> c) then length c else S (length c).
Proof.
  unfold savedInto.
  destruct (list_find _ c) as [[i x]|] eqn:Hf.
  - rewrite bool_decide_true, length_insert; [done|].
    apply list_find_Some in Hf as (Hi & Hx & _).
    apply list_elem_of_fmap. exists x. split; [done|].
    by eapply list_elem_of_lookup_2.
  - rewrite bool_decide_false by (by apply list_find_name_None).
    rewrite length_app. simpl. lia.
Qed.

Lemma savedInto_formEntry c n k :
  trim n ≠ [] → trim k ≠ [] →
  Forall formEntry c → Forall formEntry (savedInto c n k).
Proof.
  intros Hn Hk Hc.
  assert (He : formEntry {| name := trim n; content := k |}).
  { split_and!; [done|apply trim_idemp|done]. }
  unfold savedInto. destruct (list_find _ c) as [[i x]|].
  - by apply Forall_insert.
  - apply Forall_app. split; [done|]. by apply Forall_singleton.
Qed.

Lemma step_formEntry st ev :
  Forall formEntry (shortcuts st) → Forall formEntry (shortcuts (step st ev)).
Proof.
  intros Hc. destruct ev as [v|v| |v|confirmed|e ta]; simpl; try done.
  - destruct (validationFails st) eqn:Hv.
    + by rewrite handleSaveShortcut_invalid.
    + rewrite handleSaveShortcut_shortcuts by done.
      apply validationFails_false in Hv as [Hn Hk].
      by apply savedInto_formEntry.
  - destruct confirmed; simpl; [apply Forall_nil_2|done].
  - unfold handleKeyDown.
    destruct (_ && _); [|done]. destruct ta as [ta|]; [|done].
    by destruct (toggleBold _ _ _).
Qed.

Lemma run_formEntry evs : Forall formEntry (shortcuts (run evs)).
Proof.
  unfold run. induction evs as [|ev evs IH] using rev_ind; simpl.
  - apply Forall_nil_2.
  - rewrite foldl_app. simpl. by apply step_formEntry.
Qed.

Lemma trimmed_names_fmap c :
  namesTrimmed c → (λ s, trim (name s)) <$> c = name <$> c.
Proof.
  induction 1 as [|s c Hs _ IH]; [done|]. by rewrite !fmap_cons, Hs, IH.
Qed.

Lemma validationFails_true st :
  validationFails st = true
  ↔ trim (shortcutName st) = [] ∨ trim (shortcutContent st) = [].
Proof.
  unfold validationFails.
  destruct (trim (shortcutName st)), (trim (shortcutContent st)); simpl;
    split; try done; try (by left); try (by right);
    by intros [|].
Qed.

Lemma step_unchanged st ev :
  setsShortcuts st ev = false → shortcuts (step st ev) = shortcuts st.
Proof.
  destruct ev as [v|v| |v|confirmed|e ta]; simpl; try done.
  - intros Hv%negb_false_iff. by apply handleSaveShortcut_invalid.
  - by intros ->.
  - intros _. unfold handleKeyDown.
    destruct (_ && _); [|done]. destruct ta as [ta|]; [|done].
    by destruct (toggleBold _ _ _).
Qed.

End StoreMore.

(** X10.  A save that passes the validation touches one position only:
    every other entry stays where it was, with its name and content.
    The collection keeps its length when an entry of that name was
    there, and grows by one otherwise. *)
Theorem upsert_keeps_other_entries (st : State) (n k : jsstring) (j : nat) :
  trim n ≠ [] → trim k ≠ [] → j ≠ savedAt (shortcuts st) n →
  shortcuts (upsert n k st) !! j = shortcuts st !! j
  ∧ length (shortcuts (upsert n k st))
    = if bool_decide (trim n ∈ name <$> shortcuts st)
      then length (shortcuts st) else S (length (shortcuts st)).
Proof.
  intros Hn Hk Hj. rewrite upsert_shortcuts by done.
  split; [by apply savedInto_other|apply savedInto_length].
Qed.

Lemma upsert_keeps_other_entries_witness :
  shortcuts (upsert (lit " .bye") (lit "See you") exampleState) !! 1
  = shortcuts exampleState !! 1
  ∧ length (shortcuts (upsert (lit " .bye") (lit "See you") exampleState))
    = if bool_decide (trim (lit " .bye") ∈ name <$> shortcuts exampleState)
      then length (shortcuts exampleState)
      else S (length (shortcuts exampleState)).
Proof.
  apply (upsert_keeps_other_entries exampleState (lit " .bye")
           (lit "See you") 1);
    vm_compute; discriminate.
Defined.

(** X11.  After a save that passes the validation both fields of the
    form are empty, the test input and output are untouched, and the
    success message quotes the trimmed name and says "updated" when an
    entry of that name was there and "saved correctly" otherwise. *)
Theorem upsert_feedback (st : State) (n k : jsstring) :
  trim n ≠ [] → trim k ≠ [] →
  upsert n k st
  = {| shortcutName := [];
       shortcutContent := [];
       shortcuts := shortcuts (upsert n k st);
       testInput := testInput st;
       testOutput := testOutput st;
       message :=
         Some (mkMessage success
                 (lit "Shortcut '" ++ trim n
                    ++ (if bool_decide (trim n ∈ name <$> shortcuts st)
                        then lit "' updated!"
                        else lit "' saved correctly!"))) |}.
Proof.
  intros Hn Hk. unfold upsert, handleSaveShortcut.
  assert (validationFails (setShortcutContent k (setShortcutName n st)) = false)
    as -> by (by apply validationFails_false).
  unfold findIndex. simpl.
  destruct (list_find _ (shortcuts st)) as [[i x]|] eqn:Hf.
  - rewrite bool_decide_true by lia.
    rewrite (bool_decide_true (trim n ∈ _)); [done|].
    apply list_find_Some in Hf as (Hi & Hx & _).
    apply list_elem_of_fmap. exists x. split; [done|].
    by eapply list_elem_of_lookup_2.
  - rewrite bool_decide_false by lia.
    by rewrite (bool_decide_false (trim n ∈ _))
      by (by apply list_find_name_None).
Qed.

Lemma upsert_feedback_witness :
  upsert (lit ".new ") (lit "text") exampleState
  = {| shortcutName := [];
       shortcutContent := [];
       shortcuts := shortcuts (upsert (lit ".new ") (lit "text") exampleState);
       testInput := testInput exampleState;
       testOutput := testOutput exampleState;
       message :=
         Some (mkMessage success
                 (lit "Shortcut '" ++ trim (lit ".new ")
                    ++ (if bool_decide
                             (trim (lit ".new ")
                              ∈ name <$> shortcuts exampleState)
                        then lit "' updated!"
                        else lit "' saved correctly!"))) |}.
Proof.
  apply (upsert_feedback exampleState (lit ".new ") (lit "text"));
    vm_compute; discriminate.
Defined.

(** X12.  The save is refused exactly when the name or the content is
    blank (empty once trimmed): a content of white space only is
    refused too, although a content that passes is stored untrimmed. *)
Theorem upsert_refused_iff (st : State) (n k : jsstring) :
  type <$> message (upsert n k st) = Some error
  ↔ trim n = [] ∨ trim k = [].
Proof.
  unfold upsert, handleSaveShortcut.
  pose proof (validationFails_true
                (setShortcutContent k (setShortcutName n st))) as Hiff.
  simpl in Hiff.
  destruct (validationFails _) eqn:Hv.
  - simpl. split; [intros _; by apply Hiff|done].
  - assert (Hnot : ¬ (trim n = [] ∨ trim k = [])).
    { intros H. apply Hiff in H. discriminate H. }
    case_bool_decide; simpl; (split; [discriminate|done]).
Qed.

(** X14.  When several entries bear the queried name (which a loaded
    collection may contain), the lookup returns the first in the
    order of the collection. *)
Theorem lookup_first_match (c1 c2 : list Shortcut) (s : Shortcut)
    (q : jsstring) :
  name s = trim q → Forall (λ x, name x ≠ trim q) c1 →
  lookup (c1 ++ s :: c2) q = Some s.
Proof.
  intros Hs Hc1. unfold lookup, find.
  rewrite list_find_app_r by (by apply list_find_None).
  simpl. by rewrite decide_True.
Qed.

Lemma lookup_first_match_witness :
  lookup ([mkShortcut (lit "a") (lit "1")]
            ++ mkShortcut (lit "b") (lit "2")
            :: [mkShortcut (lit "b") (lit "3")]) (lit " b ")
  = Some (mkShortcut (lit "b") (lit "2")).
Proof.
  apply (lookup_first_match [mkShortcut (lit "a") (lit "1")]
           [mkShortcut (lit "b") (lit "3")]
           (mkShortcut (lit "b") (lit "2")) (lit " b ")).
  - reflexivity.
  - repeat constructor. vm_compute. discriminate.
Defined.

(** X15.  White space around the query does not matter, and an entry
    whose stored name has white space at an end is never found, by any
    query. *)
Theorem lookup_query_trimmed (c : list Shortcut) (q : jsstring) :
  lookup c q = lookup c (trim q)
  ∧ match lookup c q with
    | Some s => trim (name s) = name s
    | None => True
    end.
Proof.
  split.
  - unfold lookup. by rewrite trim_idemp.
  - unfold lookup, find.
    destruct (list_find _ c) as [[i s]|] eqn:Hf; simpl; [|done].
    apply list_find_Some in Hf as (_ & -> & _). apply trim_idemp.
Qed.

(** X16.  Only a save that passes the validation and a confirmed
    clearing change the collection: typing in a field, testing a
    shortcut, a refused save, a declined clearing and any key press
    leave it as it is. *)
Theorem step_keeps_collection (st : State) (ev : Event) :
  setsShortcuts st ev = false → shortcuts (step st ev) = shortcuts st.
Proof. apply step_unchanged. Qed.

Lemma step_keeps_collection_witness :
  shortcuts
    (step exampleState
       (KeyDown (mkKeyEvent true false (lit "b")) (Some (mkTextarea 0 4))))
  = shortcuts exampleState.
Proof.
  apply (step_keeps_collection exampleState
           (KeyDown (mkKeyEvent true false (lit "b")) (Some (mkTextarea 0 4)))).
  reflexivity.
Defined.

(** X17.  For the collections the form builds, the output box shows
    the content of a found shortcut itself: the placeholder of line
    264, which replaces an empty output, never hides a stored
    content. *)
Theorem displayedOutput_found (evs : list Event) (q : jsstring) (s : Shortcut) :
  lookup (shortcuts (run evs)) q = Some s →
  displayedOutput (handleTestInputChange q (run evs)) = content s.
Proof.
  intros Hl. unfold displayedOutput, handleTestInputChange. simpl.
  rewrite Hl.
  assert (Hs : formEntry s).
  { pose proof (run_formEntry evs) as Hf. rewrite Forall_forall in Hf.
    apply Hf. unfold lookup, find in Hl.
    destruct (list_find _ _) as [[i x]|] eqn:Hfind; [|done].
    simpl in Hl. injection Hl as ->.
    apply list_find_Some in Hfind as (Hi & _).
    by eapply list_elem_of_lookup_2. }
  destruct Hs as (_ & _ & Hk).
  destruct (content s); [by destruct Hk|done].
Qed.

Lemma displayedOutput_found_witness :
  displayedOutput
    (handleTestInputChange (lit ".hi ")
       (run [ChangeName (lit " .hi"); ChangeContent (lit "Hello!"); ClickSave]))
  = content (mkShortcut (lit ".hi") (lit "Hello!")).
Proof.
  apply (displayedOutput_found
           [ChangeName (lit " .hi"); ChangeContent (lit "Hello!"); ClickSave]
           (lit ".hi ") (mkShortcut (lit ".hi") (lit "Hello!"))).
  reflexivity.
Defined.

(** ** Persistence *)

Section PersistFacts.

Variable JSON_parse : jsstring → option (list Shortcut).
Variable JSON_stringify : list Shortcut → jsstring.

Implicit Types st : State.
Implicit Types storage : option jsstring.
Implicit Types w : State * option jsstring.

Lemma loadShortcuts_not_set (read : GetItem) :
  loadSetsShortcuts JSON_parse read = false →
  shortcuts (fst (loadShortcuts JSON_parse read initialState)) = [].
Proof.
  destruct read as [|[raw|]]; [done| |done].
  unfold loadSetsShortcuts, loadShortcuts.
  destruct (truthy raw); [|done].
  destruct (JSON_parse raw) as [parsed|]; [|done].
  intros H. rewrite andb_true_l in H.
  apply bool_decide_eq_false in H. destruct H. by exists parsed.
Qed.

Lemma mount_inSync canRead storage :
  inSync JSON_stringify (mount JSON_parse JSON_stringify canRead true storage).
Proof.
  unfold inSync, mount. simpl.
  destruct (loadSetsShortcuts _ _) eqn:Hl; simpl; [done|].
  by rewrite loadShortcuts_not_set.
Qed.

Lemma stepPersist_inSync w ev :
  inSync JSON_stringify w →
  inSync JSON_stringify (stepPersist JSON_stringify true w ev).
Proof.
  unfold inSync, stepPersist. intros Hw.
  destruct (setsShortcuts (fst w) ev) eqn:Hs; simpl; [done|].
  by rewrite step_unchanged.
Qed.

Lemma runPersist_inSync w evs :
  inSync JSON_stringify w →
  inSync JSON_stringify (runPersist JSON_stringify true w evs).
Proof.
  unfold runPersist. revert w.
  induction evs as [|ev evs IH]; intros w Hw; simpl; [done|].
  by apply IH, stepPersist_inSync.
Qed.

Lemma mount_restores canWrite (c : list Shortcut) :
  JSON_parse (JSON_stringify c) = Some c →
  truthy (JSON_stringify c) = true →
  shortcuts
    (fst (mount JSON_parse JSON_stringify true canWrite
            (Some (JSON_stringify c))))
  = c.
Proof.
  intros Hp Ht. unfold mount. simpl. rewrite Ht, Hp. simpl.
  by destruct canWrite.
Qed.

Lemma sameButMessage_refl st : sameButMessage st st.
Proof. by repeat split. Qed.

Lemma step_sameButMessage a b ev :
  sameButMessage a b →
  sameButMessage (step a ev) (step b ev)
  ∧ setsShortcuts a ev = setsShortcuts b ev.
Proof.
  destruct a, b. unfold sameButMessage. simpl.
  intros (-> & -> & -> & -> & ->).
  destruct ev as [v|v| |v|confirmed|e ta]; simpl; try done.
  - by destruct confirmed.
  - unfold handleKeyDown. simpl.
    destruct ((_ || _) && _); simpl; [|done].
    destruct ta as [ta|]; simpl; [|done].
    by destruct (toggleBold _ _ _).
Qed.

Lemma saveShortcuts_sameButMessage canWrite storage st :
  sameButMessage (fst (fst (saveShortcuts JSON_stringify canWrite storage st))) st.
Proof. destruct canWrite; by repeat split. Qed.

Lemma runPersist_sameButMessage canWrite evs a b storage :
  sameButMessage a b →
  sameButMessage
    (fst (runPersist JSON_stringify canWrite (a, storage) evs))
    (foldl step b evs).
Proof.
  unfold runPersist. revert a b storage.
  induction evs as [|ev evs IH]; intros a b storage Hab; simpl; [done|].
  destruct (step_sameButMessage a b ev Hab) as [Hstep _].
  unfold stepPersist at 2. simpl.
  destruct (setsShortcuts a ev).
  - destruct (saveShortcuts JSON_stringify canWrite storage (step a ev))
      as [[st'' storage'] log] eqn:Hsave.
    apply IH.
    pose proof (saveShortcuts_sameButMessage canWrite storage (step a ev))
      as Hs.
    rewrite Hsave in Hs. simpl in Hs.
    destruct Hs as (? & ? & ? & ? & ?), Hstep as (? & ? & ? & ? & ?).
    repeat split; congruence.
  - by apply IH.
Qed.

Lemma runPersist_failing_storage evs st storage :
  snd (runPersist JSON_stringify false (st, storage) evs) = storage.
Proof.
  unfold runPersist. revert st.
  induction evs as [|ev evs IH]; intros st; simpl; [done|].
  unfold stepPersist at 2. simpl.
  destruct (setsShortcuts st ev); simpl; apply IH.
Qed.

End PersistFacts.

(** X18.  As long as [localStorage] accepts the writes, the stored
    value is the serialisation of the collection on the screen: after
    the first render with its effects, and after every event since. *)
Theorem storage_in_sync
    (JSON_parse : jsstring → option (list Shortcut))
    (JSON_stringify : list Shortcut → jsstring)
    (canRead : bool) (storage : option jsstring) (evs : list Event) :
  snd (runPersist JSON_stringify true
         (mount JSON_parse JSON_stringify canRead true storage) evs)
  = Some (JSON_stringify
            (shortcuts
               (fst (runPersist JSON_stringify true
                       (mount JSON_parse JSON_stringify canRead true storage)
                       evs)))).
Proof. apply runPersist_inSync, mount_inSync. Qed.

(** X19.  A stored string that cannot be parsed does not survive the
    first render: the save effect, which runs right after the load
    effect on the empty collection, replaces it by the serialisation
    of the empty collection. *)
Theorem mount_replaces_unparseable
    (JSON_parse : jsstring → option (list Shortcut))
    (JSON_stringify : list Shortcut → jsstring) (raw : jsstring) :
  JSON_parse raw = None →
  snd (mount JSON_parse JSON_stringify true true (Some raw))
  = Some (JSON_stringify [])
  ∧ shortcuts (fst (mount JSON_parse JSON_stringify true true (Some raw)))
    = [].
Proof.
  intros Hp. unfold mount. simpl. rewrite Hp.
  destruct (truthy raw); simpl; done.
Qed.

Lemma mount_replaces_unparseable_witness :
  snd (mount parseStandIn stringifyEmptyArrayOnly true true
         (Some (lit "[{oops")))
  = Some (stringifyEmptyArrayOnly [])
  ∧ shortcuts
      (fst (mount parseStandIn stringifyEmptyArrayOnly true true
              (Some (lit "[{oops"))))
    = [].
Proof.
  apply (mount_replaces_unparseable parseStandIn stringifyEmptyArrayOnly
           (lit "[{oops")).
  reflexivity.
Defined.

(** X20.  Closing and reopening: when the writes were accepted and the
    serialisation of the collection is read back by [JSON.parse] (and
    is not the empty string), the next first render, over the value
    that was stored, shows the same collection, whether or not its own
    writes are accepted. *)
Theorem reopen_restores_collection
    (JSON_parse : jsstring → option (list Shortcut))
    (JSON_stringify : list Shortcut → jsstring)
    (canRead canWrite : bool) (storage : option jsstring)
    (evs : list Event) :
  let w :=
    runPersist JSON_stringify true
      (mount JSON_parse JSON_stringify canRead true storage) evs in
  JSON_parse (JSON_stringify (shortcuts (fst w))) = Some (shortcuts (fst w)) →
  truthy (JSON_stringify (shortcuts (fst w))) = true →
  shortcuts (fst (mount JSON_parse JSON_stringify true canWrite (snd w)))
  = shortcuts (fst w).
Proof.
  intros w Hp Ht.
  assert (Hs : snd w = Some (JSON_stringify (shortcuts (fst w))))
    by apply runPersist_inSync, mount_inSync.
  rewrite Hs. by apply mount_restores.
Qed.

Lemma reopen_restores_collection_witness :
  let w :=
    runPersist stringifyEmptyArrayOnly true
      (mount parseStandIn stringifyEmptyArrayOnly true true
         (Some (lit "[...]")))
      [ChangeTestInput (lit ".bye")] in
  shortcuts (fst (mount parseStandIn stringifyEmptyArrayOnly true false (snd w)))
  = shortcuts (fst w).
Proof.
  apply (reopen_restores_collection parseStandIn stringifyEmptyArrayOnly
           true false (Some (lit "[...]")) [ChangeTestInput (lit ".bye")]);
    reflexivity.
Defined.

(** X21.  Saving to [localStorage] never changes what is in memory:
    with or without accepted writes the collection after a sequence of
    events is the one the handlers alone compute; and while the writes
    are refused the stored value stays what it was. *)
Theorem persistence_keeps_memory
    (JSON_stringify : list Shortcut → jsstring) (canWrite : bool)
    (st : State) (storage : option jsstring) (evs : list Event) :
  shortcuts (fst (runPersist JSON_stringify canWrite (st, storage) evs))
  = shortcuts (foldl step st evs)
  ∧ snd (runPersist JSON_stringify false (st, storage) evs) = storage.
Proof.
  split.
  - pose proof (runPersist_sameButMessage JSON_stringify canWrite evs st st
                  storage (sameButMessage_refl st)) as (_ & _ & H & _).
    exact H.
  - apply runPersist_failing_storage.
Qed.

(** ** The entries after the first render and any events *)

Section FormCollections.

Implicit Types c : list Shortcut.
Implicit Types st : State.

Lemma formCollection_ShortcutCollection c :
  formCollection c ↔ Forall formEntry c ∧ ShortcutCollection c.
Proof.
  unfold formCollection, ShortcutCollection, uniqueTrimmedNames.
  assert (Ht : Forall formEntry c → namesTrimmed c).
  { intros Hf. eapply Forall_impl; [exact Hf|]. by intros s (_ & ? & _). }
  split.
  - intros [Hf Hn]. split_and!; [done|by apply Ht|].
    by rewrite trimmed_names_fmap by (by apply Ht).
  - intros (Hf & _ & Hu). split; [done|].
    by rewrite trimmed_names_fmap in Hu by (by apply Ht).
Qed.

Lemma step_formCollection st ev :
  formCollection (shortcuts st) → formCollection (shortcuts (step st ev)).
Proof.
  rewrite !formCollection_ShortcutCollection. intros [Hf Hc].
  split; [by apply step_formEntry|by apply step_ShortcutCollection].
Qed.

Lemma foldl_step_formCollection st evs :
  formCollection (shortcuts st) →
  formCollection (shortcuts (foldl step st evs)).
Proof.
  revert st. induction evs as [|ev evs IH]; intros st Hst; simpl; [done|].
  by apply IH, step_formCollection.
Qed.

Lemma mount_shortcuts
    (JSON_parse : jsstring → option (list Shortcut))
    (JSON_stringify : list Shortcut → jsstring)
    (canRead canWrite : bool) (storage : option jsstring) :
  shortcuts (fst (mount JSON_parse JSON_stringify canRead canWrite storage))
  = default [] (parsedCollection JSON_parse (getItem canRead storage)).
Proof.
  unfold mount. rewrite <- (loadShortcuts_shortcuts _ _ initialState).
  destruct canWrite; simpl; by destruct (loadSetsShortcuts _ _).
Qed.

End FormCollections.

(** X13.  The first render loads what the storage holds, unchecked.
    When the collection it parses, if it parses one, consists of
    entries the form can produce (a name that is not empty and has no
    white space at either end, a content that is not blank) with no
    name twice, which holds in particular when nothing is stored, then
    after the first render and any sequence of events, with accepted
    or refused writes, the collection consists of such entries with
    no name twice. *)
Theorem run_entries_wellformed
    (JSON_parse : jsstring → option (list Shortcut))
    (JSON_stringify : list Shortcut → jsstring)
    (canRead canWrite : bool) (storage : option jsstring)
    (evs : list Event) :
  (∀ c, parsedCollection JSON_parse (getItem canRead storage) = Some c →
        formCollection c) →
  formCollection
    (shortcuts
       (fst (runPersist JSON_stringify canWrite
               (mount JSON_parse JSON_stringify canRead canWrite storage)
               evs))).
Proof.
  intros Hstored.
  pose proof (mount_shortcuts JSON_parse JSON_stringify canRead canWrite
                storage) as Hm.
  destruct (mount JSON_parse JSON_stringify canRead canWrite storage)
    as [st0 storage0].
  simpl in Hm.
  pose proof (runPersist_sameButMessage JSON_stringify canWrite evs st0 st0
                storage0 (sameButMessage_refl st0)) as (_ & _ & -> & _).
  apply foldl_step_formCollection. rewrite Hm.
  destruct (parsedCollection _ _) as [c|]; simpl.
  - by apply Hstored.
  - split; [apply Forall_nil_2|apply NoDup_nil_2].
Qed.

Lemma run_entries_wellformed_witness :
  formCollection
    (shortcuts
       (fst (runPersist stringifyEmptyArrayOnly false
               (mount parseStandIn stringifyEmptyArrayOnly true false
                  (Some (lit "[...]")))
               [ChangeName (lit " .bye "); ChangeContent (lit " Later ");
                ClickSave; ChangeName (lit ".new"); ChangeContent (lit "x");
                ClickSave]))).
Proof.
  apply (run_entries_wellformed parseStandIn stringifyEmptyArrayOnly
           true false (Some (lit "[...]"))
           [ChangeName (lit " .bye "); ChangeContent (lit " Later ");
            ClickSave; ChangeName (lit ".new"); ChangeContent (lit "x");
            ClickSave]).
  intros c Hc. vm_compute in Hc. injection Hc as <-. split.
  - repeat constructor; first [reflexivity | vm_compute; discriminate].
  - apply NoDup_cons. split.
    + intros Hin%list_elem_of_singleton. discriminate Hin.
    + apply NoDup_singleton.
Defined.
